(** * Conway's Game of Life: the automaton engine of [conway.cxx]

    A shallow embedding of the class template [Conway<T>] (constructor,
    [randomInitialization], [verifyCoordBounds], [readGrid], [writeGrid],
    [update]) and the properties its specification states about it.

    Conventions of the embedding:
    - [int] and [short] values are integers in [Z]; every conversion to
      [short] ([Coord] is [std::tuple<short, short>], [short b = gen()],
      [numLiveNeighbors++]) is written out as [to_short];
    - a [std::vector] is a list indexed from 0; [operator[]] outside the
      vector (a negative [short] index becomes a huge [size_type]) is
      undefined behaviour, which the embedding renders as [None];
    - the engine object is a record, member functions pass it explicitly. *)

From Stdlib Require Import ZArith Lia.
From stdpp Require Import base tactics option list.

Local Open Scope Z_scope.

(** ** Machine integers *)

(** Conversion of an [int] to [short] (16 bits, two's complement). *)
Definition to_short (z : Z) : Z := (z + 32768) `mod` 65536 - 32768.

(** ** Vectors *)

(** [std::vector<A>(n, v)] for an [int] [n]: a negative [n] converts to a
    [size_type] above [max_size()], and the allocation fails with an
    exception ([std::length_error]). *)
Definition vec_new {A} (n : Z) (v : A) : option (list A) :=
  if decide (n < 0) then None else Some (replicate (Z.to_nat n) v).

(** [v[i]] as an rvalue. *)
Definition vec_get {A} (v : list A) (i : Z) : option A :=
  if decide (0 ≤ i) then v !! Z.to_nat i else None.

(** [v[i] = a]. *)
Definition vec_set {A} (v : list A) (i : Z) (a : A) : option (list A) :=
  if decide (0 ≤ i < Z.of_nat (length v)) then Some (<[Z.to_nat i := a]> v)
  else None.

(** [g[i][j]] as an rvalue. *)
Definition grid_get (g : list (list Z)) (i j : Z) : option Z :=
  col ← vec_get g i; vec_get col j.

(** [g[i][j] = a]. *)
Definition grid_set (g : list (list Z)) (i j : Z) (a : Z) : option (list (list Z)) :=
  col ← vec_get g i; col' ← vec_set col j a; vec_set g i col'.

(** ** Loops *)

(** [for (int i = start; i < start + k; i++) body(i)], stopping at the first
    undefined step. *)
Fixpoint for_loop {St} (k : nat) (i : Z) (body : Z → St → option St) (s : St) : option St :=
  match k with
  | O => Some s
  | S k' => s' ← body i s; for_loop k' (i + 1) body s'
  end.

(** [for (int i = 0; i < n; i++) body(i)]. *)
Definition for_range {St} (n : Z) (body : Z → St → option St) (s : St) : option St :=
  for_loop (Z.to_nat n) 0 body s.

(** [for (auto const& x : l) body(x)]. *)
Fixpoint for_each {A St} (l : list A) (body : A → St → option St) (s : St) : option St :=
  match l with
  | [] => Some s
  | x :: l' => s' ← body x s; for_each l' body s'
  end.

(** ** The engine *)

(** [typedef std::tuple<short, short> Coord]. *)
Definition Coord : Type := Z * Z.

(** [std::make_tuple(a, b)] of two [int]s, converted to a [Coord]. *)
Definition make_coord (a b : Z) : Coord := (to_short a, to_short b).

(** The data members of [Conway<T>]; a cell of type [T] is an integer. *)
Record Conway : Type := mkConway {
  coords : list Coord;
  newGrid : list (list Z);
  oldGrid : list (list Z);
  gridWidth : Z;
  gridHeight : Z
}.

(** The eight offsets pushed by the constructor, in its order. *)
Definition neighbor_offsets : list Coord :=
  [make_coord 0 1; make_coord 0 (-1); make_coord 1 0; make_coord (-1) 0;
   make_coord 1 1; make_coord (-1) (-1); make_coord 1 (-1); make_coord (-1) 1].

(** [Conway(int width, int height)]. *)
Definition Conway_ctor (width height : Z) : option Conway :=
  grid1 ← (col ← vec_new height 0; vec_new width col);
  grid2 ← (col ← vec_new height 0; vec_new width col);
  Some {| coords := neighbor_offsets;
          newGrid := grid1;
          oldGrid := grid2;
          gridWidth := width;
          gridHeight := height |}.

(** [fullGrid()]. *)
Definition fullGrid (e : Conway) : list (list Z) := newGrid e.

(** One component of [verifyCoordBounds]: [x] against dimension [dim].
    [%] is C++'s remainder ([Z.rem]); a zero divisor is undefined. *)
Definition verifyBound (dim x : Z) : option Z :=
  if decide (x < 0) then Some (to_short (dim - 1 + x))
  else if decide (dim ≤ x) then
    (if decide (dim = 0) then None else Some (to_short (Z.rem x dim)))
  else Some x.

(** [verifyCoordBounds(Coord& cc)]: the coordinate it leaves in [cc]. *)
Definition verifyCoordBounds (e : Conway) (cc : Coord) : option Coord :=
  x ← verifyBound (gridWidth e) cc.1;
  y ← verifyBound (gridHeight e) cc.2;
  Some (x, y).

(** [readGrid(Coord& cc)]. *)
Definition readGrid (e : Conway) (cc : Coord) : option Z :=
  grid_get (oldGrid e) cc.1 cc.2.

(** [writeGrid(Coord& cc, T val)]. *)
Definition writeGrid (e : Conway) (cc : Coord) (val : Z) : option Conway :=
  g ← grid_set (newGrid e) cc.1 cc.2 val;
  Some {| coords := coords e;
          newGrid := g;
          oldGrid := oldGrid e;
          gridWidth := gridWidth e;
          gridHeight := gridHeight e |}.

(** [oldGrid.swap(newGrid)]. *)
Definition swapGrids (e : Conway) : Conway :=
  {| coords := coords e;
     newGrid := oldGrid e;
     oldGrid := newGrid e;
     gridWidth := gridWidth e;
     gridHeight := gridHeight e |}.

(** Body of the loop over [coords] in [update], for the cell [(i, j)]:
    the new value of [numLiveNeighbors]. *)
Definition countNeighbor (e : Conway) (i j : Z) (cc : Coord) (numLiveNeighbors : Z) : option Z :=
  nIdx ← verifyCoordBounds e (make_coord (i + cc.1) (j + cc.2));
  v ← readGrid e nIdx;
  Some (if decide (v = 1) then to_short (numLiveNeighbors + 1) else numLiveNeighbors).

(** The loop over [coords] in [update], from [numLiveNeighbors = 0]. *)
Definition countLiveNeighbors (e : Conway) (i j : Z) : option Z :=
  for_each (coords e) (countNeighbor e i j) 0.

(** Body of the two nested loops of [update]. *)
Definition updateCell (i j : Z) (e : Conway) : option Conway :=
  let idx := make_coord i j in
  isAlive ← readGrid e idx;
  numLiveNeighbors ← countLiveNeighbors e i j;
  if bool_decide (isAlive ≠ 0) && (bool_decide (numLiveNeighbors = 2) || bool_decide (numLiveNeighbors = 3))
  then writeGrid e idx 1
  else if bool_decide (isAlive = 0) && bool_decide (numLiveNeighbors = 3)
  then writeGrid e idx 1
  else if bool_decide (isAlive ≠ 0)
  then writeGrid e idx 0
  else writeGrid e idx 0.

(** [update()]. *)
Definition update (e : Conway) : option Conway :=
  let e1 := swapGrids e in
  for_range (gridWidth e1) (λ i, for_range (gridHeight e1) (λ j, updateCell i j)) e1.

(** [n] calls of [update()] in a row. *)
Fixpoint updates (n : nat) (e : Conway) : option Conway :=
  match n with
  | O => Some e
  | S n' => e' ← update e; updates n' e'
  end.

(** The grid of [w] columns of [h] cells whose cell [(x, y)] is [f x y]. *)
Definition grid_of (w h : Z) (f : Z → Z → Z) : list (list Z) :=
  (λ x, f x <$> seqZ 0 h) <$> seqZ 0 w.

(** ** The random source *)

(** [std::default_random_engine] and [std::uniform_int_distribution<>] are
    the standard library's: [rng] is the state of the bound generator,
    [default_random_engine] the default-constructed (default-seeded) state,
    and [uniform_int a b g] the value of one call and the state after it. *)
Class RandomSource : Type := {
  rng : Type;
  default_random_engine : rng;
  uniform_int : Z → Z → rng → Z * rng;
  uniform_int_bounds : ∀ a b g, a ≤ b → a ≤ (uniform_int a b g).1 ≤ b
}.

Section Randomize.
Context `{RandomSource}.

(** Body of the two nested loops of [randomInitialization]; the state is
    the bound generator and the engine. *)
Definition randomCell (sparseness i j : Z) (st : rng * Conway) : option (rng * Conway) :=
  let '(r, g') := uniform_int 0 sparseness st.1 in
  let b := to_short r in
  let e := st.2 in
  if decide (b = 0) then
    n ← grid_set (newGrid e) i j 1;
    o ← grid_set (oldGrid e) i j 1;
    Some (g', {| coords := coords e; newGrid := n; oldGrid := o;
                 gridWidth := gridWidth e; gridHeight := gridHeight e |})
  else
    n ← grid_set (newGrid e) i j 0;
    o ← grid_set (oldGrid e) i j 0;
    Some (g', {| coords := coords e; newGrid := n; oldGrid := o;
                 gridWidth := gridWidth e; gridHeight := gridHeight e |}).

(** The loops of [randomInitialization], run with a generator in state [g]. *)
Definition randomFill (g : rng) (sparseness : Z) (e : Conway) : option (rng * Conway) :=
  for_range (gridWidth e)
    (λ i, for_range (gridHeight e) (λ j, randomCell sparseness i j)) (g, e).

(** [randomInitialization(short sparseness)]: a distribution over
    [0 .. sparseness] (its precondition is [0 ≤ sparseness]; the behaviour
    is undefined otherwise) bound to a freshly default-constructed engine. *)
Definition randomInitialization (sparseness : Z) (e : Conway) : option Conway :=
  if decide (sparseness < 0) then None
  else snd <$> randomFill default_random_engine sparseness e.

(** The state of a generator started in state [g] after [n] calls. *)
Fixpoint rng_after (a b : Z) (g : rng) (n : nat) : rng :=
  match n with
  | O => g
  | S n' => rng_after a b (uniform_int a b g).2 n'
  end.

(** The value of call number [n], counted from 0. *)
Definition draw (a b : Z) (g : rng) (n : nat) : Z :=
  (uniform_int a b (rng_after a b g n)).1.

(** The grid [randomInitialization] builds from a generator in state [g]:
    cell [(x, y)] takes draw number [x * h + y]. *)
Definition randomGrid (g : rng) (sparseness w h : Z) : list (list Z) :=
  grid_of w h (λ x y,
    if decide (to_short (draw 0 sparseness g (Z.to_nat (x * h + y))) = 0) then 1 else 0).

End Randomize.

(** A sample random source for concrete runs: a Lehmer generator
    (multiplier 16807, modulus 2^31 - 1, seed 1) reduced into the range. *)
#[refine] Instance lehmer_source : RandomSource := {|
  rng := Z;
  default_random_engine := 1;
  uniform_int a b g :=
    let g' := (16807 * g) `mod` 2147483647 in (a + g' `mod` (b - a + 1), g')
|}.
Proof.
  intros a b g Hab; simpl.
  pose proof (Z.mod_pos_bound ((16807 * g) `mod` 2147483647) (b - a + 1)); lia.
Defined.

(** ** Well-formed engines, and notions the statements and proofs use *)

(** A grid of [w] columns of [h] cells. *)
Definition grid_shape (w h : Z) (g : list (list Z)) : Prop :=
  Z.of_nat (length g) = w ∧ Forall (λ col, Z.of_nat (length col) = h) g.

(** What the constructor establishes and every member function keeps. *)
Definition wf (e : Conway) : Prop :=
  coords e = neighbor_offsets ∧
  grid_shape (gridWidth e) (gridHeight e) (newGrid e) ∧
  grid_shape (gridWidth e) (gridHeight e) (oldGrid e).

(** Every cell of the grid holds 0 or 1. *)
Definition binary_grid (g : list (list Z)) : Prop :=
  Forall (Forall (λ v : Z, v = 0 ∨ v = 1)) g.

(** A 2×2 block of live cells with its corner at [(x0, y0)]. *)
Definition block (x0 y0 x y : Z) : Z :=
  if decide (x0 ≤ x ≤ x0 + 1 ∧ y0 ≤ y ≤ y0 + 1) then 1 else 0.


(** An engine whose two buffers both hold the grid [g]. *)
Definition engine_of (w h : Z) (g : list (list Z)) : Conway :=
  {| coords := neighbor_offsets; newGrid := g; oldGrid := g;
     gridWidth := w; gridHeight := h |}.

(** The value [updateCell i j] stores, as computed from the read source. *)
Definition nextCell (e : Conway) (i j : Z) : option Z :=
  isAlive ← readGrid e (make_coord i j);
  numLiveNeighbors ← countLiveNeighbors e i j;
  Some (if bool_decide (isAlive ≠ 0) && (bool_decide (numLiveNeighbors = 2) || bool_decide (numLiveNeighbors = 3))
        then 1
        else if bool_decide (isAlive = 0) && bool_decide (numLiveNeighbors = 3)
        then 1
        else 0).

(** Two engines that differ at most in the write target [newGrid]. *)
Definition same_source (e e0 : Conway) : Prop :=
  coords e = coords e0 ∧ oldGrid e = oldGrid e0 ∧
  gridWidth e = gridWidth e0 ∧ gridHeight e = gridHeight e0.

(** The cells [update] has already written when it reaches cell [(i, j)]. *)
Definition done_before (i j x y : Z) : Prop := x < i ∨ (x = i ∧ y < j).

(** The index [verifyBound d] yields for a neighbour's index [x] with
    [-1 ≤ x ≤ d], when [2 ≤ d ≤ 32767]. *)
Definition neighborIndex (d x : Z) : Z :=
  if decide (x = -1) then d - 2 else if decide (x = d) then 0 else x.

(** 1 when the cell [(x, y)] of [g] holds 1, else 0. *)
Definition live (g : list (list Z)) (x y : Z) : Z :=
  if decide (grid_get g x y = Some 1) then 1 else 0.

(** The number of offsets in [l] whose cell, seen from [(i, j)], holds 1. *)
Definition liveAmong (l : list Coord) (g : list (list Z)) (w h i j : Z) : Z :=
  foldr (λ cc n, live g (neighborIndex w (i + cc.1)) (neighborIndex h (j + cc.2)) + n) 0 l.

(** ** Decidability of the invariants, and sample engines *)

#[global] Instance grid_shape_dec w h g : Decision (grid_shape w h g).
Proof. unfold grid_shape. apply _. Defined.

#[global] Instance wf_dec e : Decision (wf e).
Proof. unfold wf. apply _. Defined.

#[global] Instance binary_grid_dec g : Decision (binary_grid g).
Proof. unfold binary_grid. apply _. Defined.

(** Decides a closed instance of a decidable invariant by evaluation. *)
Ltac by_evaluation := refine (bool_decide_unpack _ _); vm_compute; exact I.

(** The [w]×[h] engine whose only live cell is [(x0, y0)]. *)
Definition only_alive (w h x0 y0 : Z) : Conway :=
  engine_of w h (grid_of w h (λ x y, if decide (x = x0 ∧ y = y0) then 1 else 0)).

(** The [w]×[h] engine holding a 2×2 block with its corner at [(x0, y0)]. *)
Definition block_engine (w h x0 y0 : Z) : Conway :=
  engine_of w h (grid_of w h (block x0 y0)).

(** A vertical blinker in the middle of a 5×5 grid. *)
Definition blinker : Conway :=
  engine_of 5 5 (grid_of 5 5 (λ x y, if decide (x = 2 ∧ 1 ≤ y ≤ 3) then 1 else 0)).

(** ** Further notions for the engine's properties *)

(** The value the chain of conditions in [updateCell] writes for a cell
    holding [a] with [n] live neighbours counted. *)
Definition ruleValue (a n : Z) : Z :=
  if bool_decide (a ≠ 0) && (bool_decide (n = 2) || bool_decide (n = 3)) then 1
  else if bool_decide (a = 0) && bool_decide (n = 3) then 1
  else 0.

(** The number of offsets whose cell on the torus, seen from [(i, j)],
    holds 1: the coordinates are taken modulo the dimensions. *)
Definition torusCount (g : list (list Z)) (w h i j : Z) : Z :=
  foldr (λ cc n, live g ((i + cc.1) `mod` w) ((j + cc.2) `mod` h) + n) 0 neighbor_offsets.

(** 1 at the index [a], else 0. *)
Definition only (a x : Z) : Z := if decide (x = a) then 1 else 0.

(** 1 at the three indices [a - 1], [a], [a + 1], else 0. *)
Definition around (a x : Z) : Z := if decide (a - 1 ≤ x ≤ a + 1) then 1 else 0.

(** Three live cells in a column, centred at [(a, b)], and three in a row. *)
Definition line_v (a b x y : Z) : Z := only a x * around b y.
Definition line_h (a b x y : Z) : Z := around a x * only b y.

(** ** The window and the driving loop ([GUI], [main]) *)

(** [GUI::CallbackType]. *)
Inductive CallbackType : Type :=
  | CALLBACK_NOACTION
  | CALLBACK_QUIT
  | CALLBACK_RESET.

(** An [SDL_Event] as [pollEvents] tells events apart: by [event.type]
    ([SDL_QUIT], [SDL_KEYDOWN], anything else) and, for a key press, by
    [event.key.keysym.sym]. *)
Inductive SDL_Event : Type :=
  | SDL_QUIT
  | SDL_KEYDOWN (sym : Z)
  | SDL_OTHER.

(** [GUI::drawGrid(grid, width, height)]: the points passed to
    [SDL_RenderDrawPoint], in the order of the calls. *)
Definition drawCell (grid : list (list Z)) (i j : Z) (pts : list (Z * Z)) : option (list (Z * Z)) :=
  v ← grid_get grid i j;
  Some (if decide (v = 1) then pts ++ [(i, j)] else pts).

Definition drawGrid (grid : list (list Z)) (width height : Z) : option (list (Z * Z)) :=
  for_range width (λ i, for_range height (λ j, drawCell grid i j)) [].

(** The update of [elapsedTimes] in the loop of [main]:
    [std::rotate(first, middle, last)] moves the element at [middle] to the
    front; on the reverse iterators [rbegin(), rbegin() + 1, rend()] it acts
    on the reversed vector; then [elapsedTimes[0]] is assigned. *)
Definition std_rotate {A} (middle : nat) (l : list A) : list A :=
  drop middle l ++ take middle l.

Definition recordElapsed {A} (t : A) (elapsedTimes : list A) : option (list A) :=
  vec_set (reverse (std_rotate 1 (reverse elapsedTimes))) 0 t.

(** The configuration [main] computes from its arguments, and whether it
    prints the usage text. *)
Record Config : Type := mkConfig {
  screenWidth : Z;
  screenHeight : Z;
  cfgGridWidth : Z;
  cfgGridHeight : Z;
  sparseness : Z;
  fps : Z;
  usagePrinted : bool
}.

(** [a / b] on [int]s: the quotient truncated towards zero; a zero divisor
    and the overflow of [INT_MIN / -1] are undefined. *)
Definition int_div (a b : Z) : option Z :=
  if decide (b = 0 ∨ (a = -2147483648 ∧ b = -1)) then None else Some (a ÷ b).

Section Main.
Context `{RandomSource}.

(** The key code [SDLK_r] and the C library's [atoi], on the arguments. *)
Variable SDLK_r : Z.
Variable arg : Type.
Variable atoi : arg → Z.

(** [GUI::pollEvents()] on the queue of pending events: the callback it
    returns and the events left in the queue. *)
Fixpoint pollEvents (queue : list SDL_Event) : CallbackType * list SDL_Event :=
  match queue with
  | [] => (CALLBACK_NOACTION, [])
  | event :: rest =>
      match event with
      | SDL_QUIT => (CALLBACK_QUIT, rest)
      | SDL_KEYDOWN sym =>
          if decide (sym = SDLK_r) then (CALLBACK_RESET, rest) else pollEvents rest
      | SDL_OTHER => pollEvents rest
      end
  end.

(** [atoi(argv[k])], for an index the guards on [argc] keep in range. *)
Definition argInt (argv : list arg) (k : nat) : Z := from_option atoi 0 (argv !! k).

(** The argument parsing at the head of [main]; [argc] is the length of
    [argv]. *)
Definition parseArgs (argv : list arg) : Config :=
  let argc := Z.of_nat (length argv) in
  let fps := if decide (argc = 7) then to_short (argInt argv 6) else 30 in
  let sparseness := if decide (6 ≤ argc) then to_short (argInt argv 5) else 2 in
  let gridWidth := if decide (5 ≤ argc) then argInt argv 3 else 80 in
  let gridHeight := if decide (5 ≤ argc) then argInt argv 4 else 60 in
  if decide (3 ≤ argc) then
    mkConfig (argInt argv 1) (argInt argv 2) gridWidth gridHeight sparseness fps false
  else
    mkConfig 800 600 gridWidth gridHeight sparseness fps true.

(** From the creation of the window (taken to succeed) to the loop: the
    two scale factors passed to [setScale] and the engine the loop starts
    with. *)
Definition startup (cfg : Config) : option (Z * Z * Conway) :=
  scaleX ← int_div (screenWidth cfg) (cfgGridWidth cfg);
  scaleY ← int_div (screenHeight cfg) (cfgGridHeight cfg);
  conway ← Conway_ctor (cfgGridWidth cfg) (cfgGridHeight cfg);
  conway' ← randomInitialization (sparseness cfg) conway;
  Some (scaleX, scaleY, conway').

(** One turn of the loop of [main], timing and window title apart: [None]
    inside when the loop is left, else the engine, the events still queued
    and the points drawn. *)
Definition frame (cfg : Config) (conway : Conway) (queue : list SDL_Event)
  : option (option (Conway * list SDL_Event * list (Z * Z))) :=
  let '(cb, queue') := pollEvents queue in
  match cb with
  | CALLBACK_QUIT => Some None
  | CALLBACK_RESET =>
      conway1 ← randomInitialization (sparseness cfg) conway;
      conway2 ← update conway1;
      pts ← drawGrid (fullGrid conway2) (cfgGridWidth cfg) (cfgGridHeight cfg);
      Some (Some (conway2, queue', pts))
  | CALLBACK_NOACTION =>
      conway2 ← update conway;
      pts ← drawGrid (fullGrid conway2) (cfgGridWidth cfg) (cfgGridHeight cfg);
      Some (Some (conway2, queue', pts))
  end.

(** An event on which [pollEvents] returns at once. *)
Definition control (event : SDL_Event) : Prop :=
  event = SDL_QUIT ∨ event = SDL_KEYDOWN SDLK_r.

End Main.

(** * Properties *)

(** ** Machine integers and vectors *)

Lemma to_short_id z : -32768 ≤ z ≤ 32767 → to_short z = z.
Proof.
  intros Hz. unfold to_short.
  rewrite Z.mod_small by lia. lia.
Qed.

Lemma to_short_range z : -32768 ≤ to_short z ≤ 32767.
Proof.
  unfold to_short. pose proof (Z.mod_pos_bound (z + 32768) 65536). lia.
Qed.

Lemma neighbor_offsets_eq :
  neighbor_offsets = [(0, 1); (0, -1); (1, 0); (-1, 0); (1, 1); (-1, -1); (1, -1); (-1, 1)].
Proof. reflexivity. Qed.

Lemma vec_get_Some {A} (v : list A) i a :
  vec_get v i = Some a ↔ 0 ≤ i ∧ v !! Z.to_nat i = Some a.
Proof. unfold vec_get. case_decide; [tauto | split; [done | tauto]]. Qed.

Lemma vec_get_in_range {A} (v : list A) i :
  0 ≤ i < Z.of_nat (length v) → ∃ a, vec_get v i = Some a.
Proof.
  intros Hi. unfold vec_get. rewrite decide_True by lia.
  apply lookup_lt_is_Some_2. lia.
Qed.

Lemma vec_get_bound {A} (v : list A) i a :
  vec_get v i = Some a → 0 ≤ i < Z.of_nat (length v).
Proof.
  rewrite vec_get_Some. intros [Hi Hl].
  apply lookup_lt_Some in Hl. lia.
Qed.

Lemma vec_set_Some {A} (v v' : list A) i a :
  vec_set v i a = Some v' ↔ 0 ≤ i < Z.of_nat (length v) ∧ v' = <[Z.to_nat i := a]> v.
Proof.
  unfold vec_set. case_decide; split.
  - intros [= <-]. done.
  - intros [_ ->]. done.
  - done.
  - tauto.
Qed.

Lemma vec_get_set {A} (v v' : list A) i a k :
  vec_set v i a = Some v' →
  vec_get v' k = if decide (k = i) then Some a else vec_get v k.
Proof.
  rewrite vec_set_Some. intros [Hi ->]. unfold vec_get.
  destruct (decide (k = i)) as [->|Hk].
  - rewrite decide_True by lia. apply list_lookup_insert_eq. lia.
  - case_decide; [|done]. apply list_lookup_insert_ne. lia.
Qed.

Lemma vec_set_length {A} (v v' : list A) i a :
  vec_set v i a = Some v' → length v' = length v.
Proof. rewrite vec_set_Some. intros [_ ->]. apply length_insert. Qed.

(** ** Grids *)

Lemma grid_get_Some g i j v :
  grid_get g i j = Some v ↔ ∃ col, vec_get g i = Some col ∧ vec_get col j = Some v.
Proof.
  unfold grid_get. destruct (vec_get g i) as [col|]; simpl; split.
  - intros Hv. by exists col.
  - by intros (col' & [= <-] & Hv).
  - done.
  - by intros (col' & [=] & _).
Qed.

Lemma grid_shape_col w h g i col :
  grid_shape w h g → vec_get g i = Some col → Z.of_nat (length col) = h.
Proof.
  intros [_ Hcols] [_ Hl]%vec_get_Some.
  by eapply Forall_lookup_1 in Hcols.
Qed.

Lemma grid_get_in_range w h g i j :
  grid_shape w h g → 0 ≤ i < w → 0 ≤ j < h → ∃ v, grid_get g i j = Some v.
Proof.
  intros Hg Hi Hj.
  destruct (vec_get_in_range g i) as [col Hcol]; [destruct Hg; lia|].
  pose proof (grid_shape_col _ _ _ _ _ Hg Hcol) as Hlen.
  destruct (vec_get_in_range col j) as [v Hv]; [lia|].
  exists v. apply grid_get_Some. eauto.
Qed.

Lemma grid_get_bound w h g i j v :
  grid_shape w h g → grid_get g i j = Some v → 0 ≤ i < w ∧ 0 ≤ j < h.
Proof.
  intros Hg (col & Hcol & Hv)%grid_get_Some.
  pose proof (grid_shape_col _ _ _ _ _ Hg Hcol).
  apply vec_get_bound in Hcol, Hv. destruct Hg. lia.
Qed.

Lemma grid_set_Some g g' i j a :
  grid_set g i j a = Some g' ↔
  ∃ col col', vec_get g i = Some col ∧ vec_set col j a = Some col' ∧
              vec_set g i col' = Some g'.
Proof.
  unfold grid_set. destruct (vec_get g i) as [col|]; simpl.
  - destruct (vec_set col j a) as [col'|] eqn:Hcol'; simpl; split.
    + intros Hg. exists col, col'. done.
    + intros (? & ? & [= <-] & Hc & Hg). by rewrite Hcol' in Hc; simplify_eq.
    + done.
    + intros (? & ? & [= <-] & Hc & _). by rewrite Hcol' in Hc.
  - split; [done|]. by intros (? & ? & [=] & _).
Qed.

Lemma grid_set_in_range w h g i j a :
  grid_shape w h g → 0 ≤ i < w → 0 ≤ j < h → ∃ g', grid_set g i j a = Some g'.
Proof.
  intros Hg Hi Hj.
  destruct (vec_get_in_range g i) as [col Hcol]; [destruct Hg; lia|].
  pose proof (grid_shape_col _ _ _ _ _ Hg Hcol) as Hlen.
  eexists. apply grid_set_Some. exists col. eexists. split; [done|].
  split; apply vec_set_Some; (split; [|done]); destruct Hg; lia.
Qed.

Lemma grid_set_bound w h g i j a g' :
  grid_shape w h g → grid_set g i j a = Some g' → 0 ≤ i < w ∧ 0 ≤ j < h.
Proof.
  intros Hg (col & col' & Hcol & [Hj _]%vec_set_Some & [Hi _]%vec_set_Some)%grid_set_Some.
  pose proof (grid_shape_col _ _ _ _ _ Hg Hcol). destruct Hg. lia.
Qed.

Lemma grid_get_set g g' i j a x y :
  grid_set g i j a = Some g' →
  grid_get g' x y = if decide (x = i ∧ y = j) then Some a else grid_get g x y.
Proof.
  intros (col & col' & Hcol & Hcol' & Hg')%grid_set_Some.
  unfold grid_get. rewrite (vec_get_set _ _ _ _ x Hg').
  destruct (decide (x = i)) as [->|Hx]; simpl.
  - rewrite Hcol; simpl. rewrite (vec_get_set _ _ _ _ y Hcol').
    destruct (decide (y = j)) as [->|Hy].
    + by rewrite decide_True.
    + by rewrite decide_False by tauto.
  - by rewrite decide_False by tauto.
Qed.

Lemma grid_set_shape w h g i j a g' :
  grid_shape w h g → grid_set g i j a = Some g' → grid_shape w h g'.
Proof.
  intros Hg (col & col' & Hcol & Hcol' & [Hi ->]%vec_set_Some)%grid_set_Some.
  pose proof (grid_shape_col _ _ _ _ _ Hg Hcol) as Hlen.
  destruct Hg as [Hw Hcols]. split.
  - by rewrite length_insert.
  - apply Forall_insert; [done|].
    by rewrite (vec_set_length _ _ _ _ Hcol').
Qed.

Lemma grid_ext w h g1 g2 :
  grid_shape w h g1 → grid_shape w h g2 →
  (∀ x y, 0 ≤ x < w → 0 ≤ y < h → grid_get g1 x y = grid_get g2 x y) →
  g1 = g2.
Proof.
  intros Hg1 Hg2 Heq. apply list_eq; intros n.
  destruct (decide (Z.of_nat n < w)) as [Hn|Hn].
  - destruct (vec_get_in_range g1 (Z.of_nat n)) as [c1 Hc1]; [destruct Hg1; lia|].
    destruct (vec_get_in_range g2 (Z.of_nat n)) as [c2 Hc2]; [destruct Hg2; lia|].
    pose proof (grid_shape_col _ _ _ _ _ Hg1 Hc1) as Hl1.
    pose proof (grid_shape_col _ _ _ _ _ Hg2 Hc2) as Hl2.
    assert (c1 = c2) as ->.
    { apply list_eq; intros m.
      destruct (decide (Z.of_nat m < h)) as [Hm|Hm].
      - specialize (Heq (Z.of_nat n) (Z.of_nat m)).
        unfold grid_get in Heq. rewrite Hc1, Hc2 in Heq; simpl in Heq.
        unfold vec_get in Heq. rewrite !decide_True, !Nat2Z.id in Heq by lia.
        apply Heq; lia.
      - rewrite !lookup_ge_None_2 by lia. done. }
    apply vec_get_Some in Hc1 as [_ Hc1], Hc2 as [_ Hc2].
    rewrite Nat2Z.id in Hc1, Hc2. congruence.
  - destruct Hg1, Hg2. rewrite !lookup_ge_None_2 by lia. done.
Qed.

Lemma grid_of_shape w h f : 0 ≤ w → 0 ≤ h → grid_shape w h (grid_of w h f).
Proof.
  intros Hw Hh. unfold grid_of. split.
  - rewrite length_fmap, length_seqZ. lia.
  - apply Forall_fmap, Forall_forall. intros x _; simpl.
    rewrite length_fmap, length_seqZ. lia.
Qed.

Lemma grid_get_grid_of w h f x y :
  0 ≤ x < w → 0 ≤ y < h → grid_get (grid_of w h f) x y = Some (f x y).
Proof.
  intros Hx Hy. unfold grid_get, grid_of, vec_get.
  rewrite decide_True by lia.
  rewrite list_lookup_fmap, lookup_seqZ_lt by lia; simpl.
  rewrite decide_True by lia.
  rewrite list_lookup_fmap, lookup_seqZ_lt by lia; simpl.
  by rewrite !Z2Nat.id by lia.
Qed.

Lemma binary_grid_get g :
  binary_grid g ↔ ∀ i j v, grid_get g i j = Some v → v = 0 ∨ v = 1.
Proof.
  unfold binary_grid. split.
  - intros Hb i j v (col & [_ Hcol]%vec_get_Some & [_ Hv]%vec_get_Some)%grid_get_Some.
    eapply Forall_lookup_1 in Hb; [|done].
    by eapply Forall_lookup_1 in Hb.
  - intros Hb. apply Forall_lookup_2; intros n col Hcol.
    apply Forall_lookup_2; intros m v Hv.
    apply (Hb (Z.of_nat n) (Z.of_nat m)), grid_get_Some.
    exists col. rewrite !vec_get_Some, !Nat2Z.id. repeat split; (lia || done).
Qed.

(** ** Loops *)

Lemma for_loop_total {St} (P : Z → St → Prop) body k i0 (s : St) :
  P i0 s →
  (∀ i t, i0 ≤ i < i0 + Z.of_nat k → P i t → ∃ t', body i t = Some t' ∧ P (i + 1) t') →
  ∃ s', for_loop k i0 body s = Some s' ∧ P (i0 + Z.of_nat k) s'.
Proof.
  revert i0 s. induction k as [|k IH]; intros i0 s Hs Hstep.
  - exists s. by rewrite Z.add_0_r.
  - destruct (Hstep i0 s) as (t & Ht & HPt); [lia|done|].
    destruct (IH (i0 + 1) t) as (s' & Hs' & HP'); [done| |].
    { intros i u Hi. apply Hstep. lia. }
    exists s'. simpl. rewrite Ht; simpl. split; [done|].
    by replace (i0 + Z.of_nat (S k)) with (i0 + 1 + Z.of_nat k) by lia.
Qed.

Lemma for_loop_partial {St} (P : Z → St → Prop) body k i0 (s s' : St) :
  P i0 s →
  (∀ i t t', i0 ≤ i < i0 + Z.of_nat k → P i t → body i t = Some t' → P (i + 1) t') →
  for_loop k i0 body s = Some s' →
  P (i0 + Z.of_nat k) s' ∧
  ∀ i, i0 ≤ i < i0 + Z.of_nat k → ∃ t t', P i t ∧ body i t = Some t'.
Proof.
  revert i0 s. induction k as [|k IH]; intros i0 s Hs Hstep Hrun.
  - simpl in Hrun. injection Hrun as <-. rewrite Z.add_0_r.
    split; [done|]. intros i Hi. lia.
  - simpl in Hrun. destruct (body i0 s) as [t|] eqn:Ht; [|done]. simpl in Hrun.
    assert (P (i0 + 1) t) as HPt by (apply (Hstep i0 s); [lia|done..]).
    destruct (IH (i0 + 1) t) as [HP' Hsteps]; [done| |done|].
    { intros i u u' Hi. apply Hstep. lia. }
    split.
    + by replace (i0 + Z.of_nat (S k)) with (i0 + 1 + Z.of_nat k) by lia.
    + intros i Hi. destruct (decide (i = i0)) as [->|Hne].
      * exists s, t; done.
      * apply Hsteps. lia.
Qed.

Lemma for_range_total {St} (P : Z → St → Prop) body n (s : St) :
  0 ≤ n → P 0 s →
  (∀ i t, 0 ≤ i < n → P i t → ∃ t', body i t = Some t' ∧ P (i + 1) t') →
  ∃ s', for_range n body s = Some s' ∧ P n s'.
Proof.
  intros Hn Hs Hstep.
  destruct (for_loop_total P body (Z.to_nat n) 0 s) as (s' & Hs' & HP); [done| |].
  { intros i t Hi. apply Hstep. lia. }
  exists s'. split; [done|]. by rewrite Z.add_0_l, Z2Nat.id in HP.
Qed.

Lemma for_range_partial {St} (P : Z → St → Prop) body n (s s' : St) :
  0 ≤ n → P 0 s →
  (∀ i t t', 0 ≤ i < n → P i t → body i t = Some t' → P (i + 1) t') →
  for_range n body s = Some s' →
  P n s' ∧ ∀ i, 0 ≤ i < n → ∃ t t', P i t ∧ body i t = Some t'.
Proof.
  intros Hn Hs Hstep Hrun.
  destruct (for_loop_partial P body (Z.to_nat n) 0 s s') as [HP Hsteps]; [done| |done|].
  { intros i t t' Hi. apply Hstep. lia. }
  rewrite Z.add_0_l, Z2Nat.id in HP by done. split; [done|].
  intros i Hi. apply Hsteps. lia.
Qed.

Lemma for_each_total {A St} (P : St → Prop) (l : list A) body (s : St) :
  P s →
  (∀ x t, x ∈ l → P t → ∃ t', body x t = Some t' ∧ P t') →
  ∃ s', for_each l body s = Some s' ∧ P s'.
Proof.
  revert s. induction l as [|x l IH]; intros s Hs Hstep.
  - by exists s.
  - destruct (Hstep x s) as (t & Ht & HPt); [by left|done|].
    destruct (IH t) as (s' & Hs' & HP'); [done| |].
    { intros y u Hy. apply Hstep. by right. }
    exists s'. simpl. by rewrite Ht.
Qed.

Lemma for_each_steps {A St} (l : list A) body (s s' : St) :
  for_each l body s = Some s' → ∀ x, x ∈ l → ∃ t t', body x t = Some t'.
Proof.
  revert s. induction l as [|x l IH]; intros s Hrun y Hy.
  - by apply elem_of_nil in Hy.
  - simpl in Hrun. destruct (body x s) as [t|] eqn:Ht; [|done].
    apply elem_of_cons in Hy as [->|Hy]; [by exists s, t|].
    by apply (IH t).
Qed.

Lemma for_each_ext {A St} (l : list A) (f g : A → St → option St) (s : St) :
  (∀ x t, f x t = g x t) → for_each l f s = for_each l g s.
Proof.
  intros Hfg. revert s. induction l as [|x l IH]; intros s; [done|].
  simpl. rewrite Hfg. destruct (g x s); simpl; [apply IH|done].
Qed.

(** ** Reads depend on the read source only *)

Lemma same_source_refl e : same_source e e.
Proof. by repeat split. Qed.

Lemma same_source_trans e1 e2 e3 :
  same_source e1 e2 → same_source e2 e3 → same_source e1 e3.
Proof. intros (?&?&?&?) (?&?&?&?). repeat split; congruence. Qed.

Lemma readGrid_same e e0 cc : same_source e e0 → readGrid e cc = readGrid e0 cc.
Proof. intros (_&Ho&_&_). unfold readGrid. by rewrite Ho. Qed.

Lemma verifyCoordBounds_same e e0 cc :
  same_source e e0 → verifyCoordBounds e cc = verifyCoordBounds e0 cc.
Proof. intros (_&_&Hw&Hh). unfold verifyCoordBounds. by rewrite Hw, Hh. Qed.

Lemma countLiveNeighbors_same e e0 i j :
  same_source e e0 → countLiveNeighbors e i j = countLiveNeighbors e0 i j.
Proof.
  intros Hs. unfold countLiveNeighbors. destruct Hs as (Hc&Hs). rewrite Hc.
  apply for_each_ext. intros cc n. unfold countNeighbor.
  rewrite (verifyCoordBounds_same e e0) by (by split).
  destruct (verifyCoordBounds e0 _) as [nIdx|]; simpl; [|done].
  by rewrite (readGrid_same e e0) by (by split).
Qed.

Lemma nextCell_same e e0 i j : same_source e e0 → nextCell e i j = nextCell e0 i j.
Proof.
  intros Hs. unfold nextCell.
  by rewrite (readGrid_same e e0), (countLiveNeighbors_same e e0).
Qed.

Lemma nextCell_binary e i j v : nextCell e i j = Some v → v = 0 ∨ v = 1.
Proof.
  unfold nextCell. intros Hv.
  destruct (readGrid e _) as [a|]; simpl in Hv; [|done].
  destruct (countLiveNeighbors e i j) as [n|]; simpl in Hv; [|done].
  injection Hv as <-. repeat case_match; auto.
Qed.

Lemma updateCell_nextCell i j e :
  updateCell i j e = v ← nextCell e i j; writeGrid e (make_coord i j) v.
Proof.
  unfold updateCell, nextCell.
  destruct (readGrid e _) as [a|]; simpl; [|done].
  destruct (countLiveNeighbors e i j) as [n|]; simpl; [|done].
  repeat case_match; done.
Qed.

Lemma writeGrid_Some e cc v e' :
  writeGrid e cc v = Some e' ↔
  ∃ g, grid_set (newGrid e) cc.1 cc.2 v = Some g ∧
       e' = {| coords := coords e; newGrid := g; oldGrid := oldGrid e;
               gridWidth := gridWidth e; gridHeight := gridHeight e |}.
Proof.
  unfold writeGrid. destruct (grid_set _ _ _ _) as [g|]; simpl; split.
  - intros [= <-]. by exists g.
  - by intros (g' & [= <-] & ->).
  - done.
  - by intros (? & [=] & _).
Qed.

Lemma updateCell_Some i j e e' :
  updateCell i j e = Some e' ↔
  ∃ v g, nextCell e i j = Some v ∧
         grid_set (newGrid e) (to_short i) (to_short j) v = Some g ∧
         e' = {| coords := coords e; newGrid := g; oldGrid := oldGrid e;
                 gridWidth := gridWidth e; gridHeight := gridHeight e |}.
Proof.
  rewrite updateCell_nextCell.
  destruct (nextCell e i j) as [v|]; simpl.
  - rewrite writeGrid_Some. simpl. split.
    + intros (g & Hg & ->). exists v, g; done.
    + intros (v' & g & [= <-] & Hg & ->). by exists g.
  - split; [done|]. by intros (? & ? & [=] & _).
Qed.

Lemma updateCell_same_source i j t t' : updateCell i j t = Some t' → same_source t' t.
Proof. intros (v & g & _ & _ & ->)%updateCell_Some. by repeat split. Qed.

Lemma updateCell_shape w h i j t t' :
  grid_shape w h (newGrid t) → updateCell i j t = Some t' →
  grid_shape w h (newGrid t').
Proof.
  intros Hg (v & g & _ & Hset & ->)%updateCell_Some. simpl.
  by eapply grid_set_shape.
Qed.

Lemma nextCell_rule e i j v :
  nextCell e i j = Some v →
  ∃ a n, readGrid e (make_coord i j) = Some a ∧ countLiveNeighbors e i j = Some n ∧
         (v = 1 ↔ (a ≠ 0 ∧ (n = 2 ∨ n = 3)) ∨ (a = 0 ∧ n = 3)) ∧
         (v ≠ 1 → v = 0).
Proof.
  unfold nextCell. intros Hv.
  destruct (readGrid e _) as [a|]; simpl in Hv; [|done].
  destruct (countLiveNeighbors e i j) as [n|]; simpl in Hv; [|done].
  injection Hv as <-. exists a, n. split; [done|]. split; [done|].
  repeat case_bool_decide; simpl; split; lia.
Qed.

Lemma grid_shape_nonneg w h g : grid_shape w h g → 0 ≤ w.
Proof. intros [<- _]. lia. Qed.

Lemma grid_shape_empty h g : grid_shape 0 h g → g = [].
Proof. intros [Hlen _]. destruct g; [done|simpl in Hlen; lia]. Qed.

Lemma grid_shape_dims w h g : grid_shape w h g → w = 0 ∨ 0 ≤ h.
Proof.
  intros [Hlen Hcols]. destruct g as [|col g]; [by left|right].
  apply Forall_cons in Hcols as [<- _]. lia.
Qed.

(** Every cell update of a completed [update()] ran on a state that shares
    the read source with the state after the swap. *)
Lemma update_steps e e' :
  wf e → update e = Some e' →
  same_source e' (swapGrids e) ∧
  grid_shape (gridWidth e) (gridHeight e) (newGrid e') ∧
  ∀ i j, 0 ≤ i < gridWidth e → 0 ≤ j < gridHeight e →
    ∃ t t', same_source t (swapGrids e) ∧ updateCell i j t = Some t'.
Proof.
  intros (Hc & Hnew & Hold) Hrun. unfold update in Hrun. simpl in Hrun.
  set (e1 := swapGrids e) in *.
  set (P := λ (_ : Z) (t : Conway),
         same_source t e1 ∧ grid_shape (gridWidth e) (gridHeight e) (newGrid t)).
  assert (∀ i t t', P i t →
    for_range (gridHeight e) (λ j, updateCell i j) t = Some t' →
    P (gridHeight e) t' ∧
    ∀ j, 0 ≤ j < gridHeight e → ∃ u u', P j u ∧ updateCell i j u = Some u')
    as Hinner.
  { intros i t t' HP Hcol.
    destruct (decide (0 ≤ gridHeight e)) as [Hh|Hh].
    - eapply (for_range_partial P); [done|exact HP| |exact Hcol].
      intros j u u' _ [Hs Hg] Hu. split.
      + eapply same_source_trans; [by eapply updateCell_same_source|done].
      + by eapply updateCell_shape.
    - unfold for_range in Hcol. rewrite Z2Nat.nonpos in Hcol by lia.
      injection Hcol as <-. split; [done|]. intros; lia. }
  destruct (for_range_partial P
    (λ i, for_range (gridHeight e) (λ j, updateCell i j)) (gridWidth e) e1 e')
    as [[Hs Hg] Hsteps].
  - by eapply grid_shape_nonneg.
  - split; [apply same_source_refl|done].
  - intros i t t' _ HPt Hcol. destruct (Hinner i t t' HPt Hcol) as [HP' _].
    exact HP'.
  - exact Hrun.
  - split; [done|]. split; [done|].
    intros i j Hi Hj. destruct (Hsteps i Hi) as (t & t' & HPt & Hcol).
    destruct (Hinner i t t' HPt Hcol) as [_ Hcells].
    destruct (Hcells j Hj) as (u & u' & [Hu _] & Hcell). exists u, u'; done.
Qed.

Lemma countNeighbor_Some e i j cc n n' :
  countNeighbor e i j cc n = Some n' →
  ∃ x y v, verifyBound (gridWidth e) (to_short (i + cc.1)) = Some x ∧
           verifyBound (gridHeight e) (to_short (j + cc.2)) = Some y ∧
           grid_get (oldGrid e) x y = Some v ∧
           n' = if decide (v = 1) then to_short (n + 1) else n.
Proof.
  unfold countNeighbor, verifyCoordBounds, readGrid, make_coord; simpl.
  destruct (verifyBound (gridWidth e) _) as [x|]; simpl; [|done].
  destruct (verifyBound (gridHeight e) _) as [y|]; simpl; [|done].
  destruct (grid_get (oldGrid e) x y) as [v|] eqn:Hv; simpl; [|done].
  intros [= <-]. exists x, y, v; done.
Qed.

(** The dimensions on which a cell and its two neighbours along one axis
    can all be read: [rd] tells which indices of the axis are readable. *)
Lemma axis_bounds d (rd : Z → Prop) :
  0 < d → (∀ x, rd x → 0 ≤ x < d) →
  (∀ i, 0 ≤ i < d → rd (to_short i)) →
  (∀ i, 0 ≤ i < d → ∃ x, verifyBound d (to_short (i + -1)) = Some x ∧ rd x) →
  (∀ i, 0 ≤ i < d → ∃ x, verifyBound d (to_short (i + 1)) = Some x ∧ rd x) →
  2 ≤ d ≤ 32767.
Proof.
  intros Hd Hrd Hself Hprev Hnext. split.
  - destruct (decide (d = 1)) as [->|]; [|lia].
    destruct (Hprev 0) as (x & Hx & Hr); [lia|].
    vm_compute in Hx. injection Hx as <-. apply Hrd in Hr. lia.
  - destruct (decide (d ≤ 32767)) as [|Hbig]; [done|].
    destruct (decide (d = 32768)) as [->|].
    + destruct (Hnext 32767) as (x & Hx & Hr); [lia|].
      vm_compute in Hx. injection Hx as <-. apply Hrd in Hr. lia.
    + specialize (Hself 32768). change (to_short 32768) with (-32768) in Hself.
      apply Hrd in Hself; lia.
Qed.

(** [update()] completes on a non-empty grid only if both dimensions lie
    between 2 and 32767. *)
Lemma update_defined_dims e e' :
  wf e → update e = Some e' → 0 < gridWidth e → 0 < gridHeight e →
  2 ≤ gridWidth e ≤ 32767 ∧ 2 ≤ gridHeight e ≤ 32767.
Proof.
  intros Hwf Hrun Hw Hh.
  destruct (update_steps e e' Hwf Hrun) as (_ & _ & Hcells).
  destruct Hwf as (Hc & Hnew & Hold).
  assert (∀ i j, 0 ≤ i < gridWidth e → 0 ≤ j < gridHeight e →
    (∃ v, grid_get (newGrid e) (to_short i) (to_short j) = Some v) ∧
    ∀ cc, cc ∈ neighbor_offsets →
      ∃ x y v, verifyBound (gridWidth e) (to_short (i + cc.1)) = Some x ∧
               verifyBound (gridHeight e) (to_short (j + cc.2)) = Some y ∧
               grid_get (newGrid e) x y = Some v) as Hreads.
  { intros i j Hi Hj. destruct (Hcells i j Hi Hj) as (t & t' & Hs & Hcell).
    apply updateCell_Some in Hcell as (v & g & Hv & _).
    rewrite (nextCell_same t (swapGrids e)) in Hv by done.
    apply nextCell_rule in Hv as (a & n & Ha & Hn & _). split; [by exists a|].
    intros cc Hcc. unfold countLiveNeighbors in Hn. simpl in Hn.
    eapply for_each_steps in Hn as (k & k' & Hk); [|by rewrite Hc].
    apply countNeighbor_Some in Hk as (x & y & v' & Hx & Hy & Hv' & _).
    exists x, y, v'; done. }
  split.
  - apply (axis_bounds _ (λ x, ∃ y v, grid_get (newGrid e) x y = Some v)); [done|..].
    + intros x (y & v & Hv). by eapply grid_get_bound in Hv as [? _].
    + intros i Hi. destruct (Hreads i 0) as [[v Hv] _]; [done|lia|].
      by exists (to_short 0), v.
    + intros i Hi. destruct (Hreads i 0) as [_ Hn]; [done|lia|].
      destruct (Hn (-1, 0)) as (x & y & v & Hx & _ & Hv);
        [rewrite neighbor_offsets_eq; repeat constructor|].
      exists x. split; [done|]. exists y, v; done.
    + intros i Hi. destruct (Hreads i 0) as [_ Hn]; [done|lia|].
      destruct (Hn (1, 0)) as (x & y & v & Hx & _ & Hv);
        [rewrite neighbor_offsets_eq; repeat constructor|].
      exists x. split; [done|]. exists y, v; done.
  - apply (axis_bounds _ (λ y, ∃ x v, grid_get (newGrid e) x y = Some v)); [done|..].
    + intros y (x & v & Hv). by eapply grid_get_bound in Hv as [_ ?].
    + intros j Hj. destruct (Hreads 0 j) as [[v Hv] _]; [lia|done|].
      by exists (to_short 0), v.
    + intros j Hj. destruct (Hreads 0 j) as [_ Hn]; [lia|done|].
      destruct (Hn (0, -1)) as (x & y & v & _ & Hy & Hv);
        [rewrite neighbor_offsets_eq; repeat constructor|].
      exists y. split; [done|]. exists x, v; done.
    + intros j Hj. destruct (Hreads 0 j) as [_ Hn]; [lia|done|].
      destruct (Hn (0, 1)) as (x & y & v & _ & Hy & Hv);
        [rewrite neighbor_offsets_eq; repeat constructor|].
      exists y. split; [done|]. exists x, v; done.
Qed.

(** ** The step where it is defined: dimensions from 2 to 32767 *)

Lemma verifyBound_near d x :
  2 ≤ d ≤ 32767 → -1 ≤ x ≤ d →
  verifyBound d (to_short x) = Some (neighborIndex d x).
Proof.
  intros Hd Hx. rewrite to_short_id by lia. unfold verifyBound, neighborIndex.
  destruct (decide (x = -1)) as [->|].
  - rewrite decide_True by lia. f_equal. rewrite to_short_id; lia.
  - rewrite decide_False by lia. destruct (decide (x = d)) as [->|].
    + rewrite decide_True, decide_False by lia. by rewrite Z.rem_same by lia.
    + by rewrite decide_False by lia.
Qed.

Lemma neighborIndex_range d x : 2 ≤ d → -1 ≤ x ≤ d → 0 ≤ neighborIndex d x < d.
Proof. intros Hd Hx. unfold neighborIndex. repeat case_decide; lia. Qed.

Lemma neighbor_offsets_small cc :
  cc ∈ neighbor_offsets → -1 ≤ cc.1 ≤ 1 ∧ -1 ≤ cc.2 ≤ 1.
Proof.
  revert cc. apply Forall_forall. rewrite neighbor_offsets_eq.
  repeat constructor; simpl; lia.
Qed.

Lemma live_range g x y : 0 ≤ live g x y ≤ 1.
Proof. unfold live. case_decide; lia. Qed.

Lemma countNeighbor_live e i j cc n :
  grid_shape (gridWidth e) (gridHeight e) (oldGrid e) →
  2 ≤ gridWidth e ≤ 32767 → 2 ≤ gridHeight e ≤ 32767 →
  0 ≤ i < gridWidth e → 0 ≤ j < gridHeight e →
  -1 ≤ cc.1 ≤ 1 → -1 ≤ cc.2 ≤ 1 → 0 ≤ n < 32767 →
  countNeighbor e i j cc n =
    Some (n + live (oldGrid e) (neighborIndex (gridWidth e) (i + cc.1))
                               (neighborIndex (gridHeight e) (j + cc.2))).
Proof.
  intros Hg Hw Hh Hi Hj Hx Hy Hn.
  unfold countNeighbor, verifyCoordBounds, readGrid, make_coord; simpl.
  rewrite !verifyBound_near by lia; simpl.
  destruct (grid_get_in_range _ _ (oldGrid e)
              (neighborIndex (gridWidth e) (i + cc.1))
              (neighborIndex (gridHeight e) (j + cc.2)) Hg) as [v Hv];
    [apply neighborIndex_range; lia..|].
  rewrite Hv; simpl. unfold live. rewrite Hv. f_equal.
  destruct (decide (v = 1)) as [->|Hv1].
  - rewrite decide_True by done. apply to_short_id. lia.
  - rewrite decide_False by congruence. lia.
Qed.

Lemma count_liveAmong e i j l n :
  grid_shape (gridWidth e) (gridHeight e) (oldGrid e) →
  2 ≤ gridWidth e ≤ 32767 → 2 ≤ gridHeight e ≤ 32767 →
  0 ≤ i < gridWidth e → 0 ≤ j < gridHeight e →
  (∀ cc, cc ∈ l → -1 ≤ cc.1 ≤ 1 ∧ -1 ≤ cc.2 ≤ 1) →
  0 ≤ n → n + Z.of_nat (length l) ≤ 32767 →
  for_each l (countNeighbor e i j) n =
    Some (n + liveAmong l (oldGrid e) (gridWidth e) (gridHeight e) i j).
Proof.
  intros Hg Hw Hh Hi Hj. revert n. induction l as [|cc l IH]; intros n Hl Hn Hlen.
  - simpl. f_equal. lia.
  - simpl in Hlen. destruct (Hl cc) as [Hx Hy]; [by left|].
    cbn [for_each liveAmong foldr].
    rewrite countNeighbor_live by (done || lia). simpl.
    pose proof (live_range (oldGrid e) (neighborIndex (gridWidth e) (i + cc.1))
                  (neighborIndex (gridHeight e) (j + cc.2))).
    rewrite IH; [|intros; apply Hl; by right|lia..].
    f_equal. unfold liveAmong. lia.
Qed.

Lemma countLiveNeighbors_liveAmong e i j :
  coords e = neighbor_offsets →
  grid_shape (gridWidth e) (gridHeight e) (oldGrid e) →
  2 ≤ gridWidth e ≤ 32767 → 2 ≤ gridHeight e ≤ 32767 →
  0 ≤ i < gridWidth e → 0 ≤ j < gridHeight e →
  countLiveNeighbors e i j =
    Some (liveAmong neighbor_offsets (oldGrid e) (gridWidth e) (gridHeight e) i j).
Proof.
  intros Hc Hg Hw Hh Hi Hj. unfold countLiveNeighbors. rewrite Hc.
  rewrite count_liveAmong; [done..| | |].
  - apply neighbor_offsets_small.
  - done.
  - simpl. lia.
Qed.

Lemma nextCell_defined e i j :
  coords e = neighbor_offsets →
  grid_shape (gridWidth e) (gridHeight e) (oldGrid e) →
  2 ≤ gridWidth e ≤ 32767 → 2 ≤ gridHeight e ≤ 32767 →
  0 ≤ i < gridWidth e → 0 ≤ j < gridHeight e →
  ∃ v, nextCell e i j = Some v.
Proof.
  intros Hc Hg Hw Hh Hi Hj. unfold nextCell, readGrid, make_coord; simpl.
  rewrite !to_short_id by lia.
  destruct (grid_get_in_range _ _ (oldGrid e) i j Hg) as [a ->]; [done..|].
  rewrite countLiveNeighbors_liveAmong by done. simpl. by eexists.
Qed.

Lemma same_source_record t e1 :
  same_source t e1 →
  t = {| coords := coords e1; newGrid := newGrid t; oldGrid := oldGrid e1;
         gridWidth := gridWidth e1; gridHeight := gridHeight e1 |}.
Proof. destruct t. intros (?&?&?&?); simpl in *. by subst. Qed.

(** On dimensions from 2 to 32767 [update()] completes, and the write
    target then holds [nextCell] of the read source at every cell. *)
Lemma update_total e :
  wf e → 2 ≤ gridWidth e ≤ 32767 → 2 ≤ gridHeight e ≤ 32767 →
  ∃ g, update e = Some {| coords := coords e; newGrid := g; oldGrid := newGrid e;
                          gridWidth := gridWidth e; gridHeight := gridHeight e |} ∧
       grid_shape (gridWidth e) (gridHeight e) g ∧
       ∀ x y, 0 ≤ x < gridWidth e → 0 ≤ y < gridHeight e →
         grid_get g x y = nextCell (swapGrids e) x y.
Proof.
  intros (Hc & Hnew & Hold) Hw Hh. unfold update. simpl.
  set (e1 := swapGrids e).
  pose (Inv := λ (i j : Z) (t : Conway),
    same_source t e1 ∧ grid_shape (gridWidth e) (gridHeight e) (newGrid t) ∧
    ∀ x y, 0 ≤ x < gridWidth e → 0 ≤ y < gridHeight e → done_before i j x y →
      grid_get (newGrid t) x y = nextCell e1 x y).
  destruct (for_range_total (λ i t, Inv i 0 t)
    (λ i, for_range (gridHeight e) (λ j, updateCell i j)) (gridWidth e) e1)
    as (e' & Hrun & Hs & Hg & Hcells).
  - lia.
  - split; [apply same_source_refl|]. split; [done|].
    intros x y Hx Hy [?|[? ?]]; lia.
  - intros i t Hi HInv.
    destruct (for_range_total (λ j u, Inv i j u) (λ j, updateCell i j)
      (gridHeight e) t) as (t' & Hcol & Hs & Hg & Hcells).
    + lia.
    + exact HInv.
    + intros j u Hj (Hs & Hg & Hcells).
      destruct (nextCell_defined e1 i j) as [v Hv]; [done..|].
      destruct (grid_set_in_range _ _ (newGrid u) i j v Hg) as [g Hset]; [done..|].
      eexists. split.
      * apply updateCell_Some. exists v, g.
        rewrite (nextCell_same u e1), !to_short_id by (done || lia). done.
      * split; [|split]; simpl.
        -- destruct Hs as (?&?&?&?). by repeat split.
        -- by eapply grid_set_shape.
        -- intros x y Hx Hy Hdone. rewrite (grid_get_set _ _ _ _ _ x y Hset).
           case_decide as Hxy; [by destruct Hxy as [-> ->]|].
           apply Hcells; [done..|]. unfold done_before in *. lia.
    + exists t'. split; [done|]. split; [done|]. split; [done|].
      intros x y Hx Hy Hdone. apply Hcells; [done..|].
      unfold done_before in *. lia.
  - exists (newGrid e'). split; [|split; [done|]].
    + rewrite Hrun. f_equal. by apply same_source_record in Hs.
    + intros x y Hx Hy. apply Hcells; [done..|]. unfold done_before. lia.
Qed.

(** Whenever [update()] completes, it has written [nextCell] of the read
    source to every cell of the write target and left the rest alone. *)
Lemma update_Some e e' :
  wf e → update e = Some e' →
  e' = {| coords := coords e; newGrid := newGrid e'; oldGrid := newGrid e;
          gridWidth := gridWidth e; gridHeight := gridHeight e |} ∧
  grid_shape (gridWidth e) (gridHeight e) (newGrid e') ∧
  ∀ x y, 0 ≤ x < gridWidth e → 0 ≤ y < gridHeight e →
    grid_get (newGrid e') x y = nextCell (swapGrids e) x y ∧
    is_Some (nextCell (swapGrids e) x y).
Proof.
  intros Hwf Hrun.
  destruct (update_steps e e' Hwf Hrun) as (Hs & Hg & _).
  split; [by apply same_source_record in Hs|]. split; [done|].
  intros x y Hx Hy.
  destruct (update_defined_dims e e' Hwf Hrun) as [Hw Hh]; [lia..|].
  destruct (update_total e Hwf Hw Hh) as (g & Hrun' & _ & Hcells).
  rewrite Hrun in Hrun'. injection Hrun' as ->. simpl.
  rewrite Hcells by done. split; [done|].
  destruct Hwf as (Hc & Hnew & Hold).
  destruct (nextCell_defined (swapGrids e) x y) as [v ->]; done.
Qed.

Lemma update_wf e e' : wf e → update e = Some e' → wf e'.
Proof.
  intros Hwf Hrun. destruct (update_Some e e' Hwf Hrun) as (Heq & Hg & _).
  destruct Hwf as (Hc & Hnew & Hold). rewrite Heq.
  split; [done|]. split; [exact Hg|exact Hnew].
Qed.

(** ** The transition rule *)

(** C1, as the code has it.  On every constructed engine whose width and
    height lie between 2 and 32767, a call of [update()] (the spec's
    [step()]) completes without any access outside the grids.  And whenever
    a call completes on a constructed engine, every cell [(i, j)] of the
    write target holds a value that is a function of the cell's
    previous-generation value [a] and of the live-neighbour count [n] the
    call computed for it: it is 1 (alive) exactly when ([a] is alive and [n]
    is 2 or 3) or ([a] is dead and [n] is 3), and 0 (dead) in every other
    case. *)
Theorem update_transition_rule (e : Conway) :
  wf e →
  (2 ≤ gridWidth e ≤ 32767 → 2 ≤ gridHeight e ≤ 32767 → ∃ e', update e = Some e') ∧
  ∀ e', update e = Some e' →
    ∀ i j, 0 ≤ i < gridWidth e → 0 ≤ j < gridHeight e →
      ∃ a n v,
        grid_get (fullGrid e) i j = Some a ∧
        countLiveNeighbors (swapGrids e) i j = Some n ∧
        grid_get (fullGrid e') i j = Some v ∧
        (v = 1 ↔ (a ≠ 0 ∧ (n = 2 ∨ n = 3)) ∨ (a = 0 ∧ n = 3)) ∧
        (v ≠ 1 → v = 0).
Proof.
  intros Hwf. split.
  - intros Hw Hh. destruct (update_total e Hwf Hw Hh) as (g & Hrun & _).
    by eexists.
  - intros e' Hrun i j Hi Hj.
    destruct (update_defined_dims e e' Hwf Hrun) as [Hw Hh]; [lia..|].
    destruct (update_Some e e' Hwf Hrun) as (_ & _ & Hcells).
    destruct (Hcells i j Hi Hj) as [Hget [v Hv]].
    destruct (nextCell_rule _ _ _ _ Hv) as (a & n & Ha & Hn & Hrule & Hdead).
    unfold readGrid, make_coord in Ha. simpl in Ha.
    rewrite !to_short_id in Ha by lia.
    exists a, n, v. unfold fullGrid. rewrite Hget. done.
Qed.

(** ** The read source is never written *)

Lemma for_loop_oldGrid k i0 body (t t' : Conway) :
  (∀ i u u', body i u = Some u' → oldGrid u' = oldGrid u) →
  for_loop k i0 body t = Some t' → oldGrid t' = oldGrid t.
Proof.
  intros Hbody Hrun.
  destruct (for_loop_partial (λ _ u, oldGrid u = oldGrid t) body k i0 t t')
    as [Hold _]; [done| |done|done].
  intros i u u' _ Hu Hstep. rewrite <- Hu. by eapply Hbody.
Qed.

Lemma updateCell_oldGrid i j t t' : updateCell i j t = Some t' → oldGrid t' = oldGrid t.
Proof. by intros (_ & ? & _)%updateCell_same_source. Qed.

(** C3. During one call of [update()] the read source (the buffer the
    initial swap makes [oldGrid], that is the current generation) is never
    written: a write changes [newGrid] only; after any number of completed
    columns and any number of further cells of the next column, [oldGrid] is
    still the previous generation and every read returns a value of it; and
    so it is when the call returns.  (On dimensions from 2 to 32767 the call
    does return.) *)
Theorem update_read_source_untouched (e : Conway) :
  (∀ t cc v t', writeGrid t cc v = Some t' → oldGrid t' = oldGrid t) ∧
  (∀ kw kh t t',
     for_loop kw 0 (λ i, for_range (gridHeight e) (λ j, updateCell i j)) (swapGrids e) = Some t →
     for_loop kh 0 (λ j, updateCell (Z.of_nat kw) j) t = Some t' →
     oldGrid t' = fullGrid e ∧
     ∀ cc, readGrid t' cc = grid_get (fullGrid e) cc.1 cc.2) ∧
  (∀ e', update e = Some e' → oldGrid e' = fullGrid e) ∧
  (wf e → 2 ≤ gridWidth e ≤ 32767 → 2 ≤ gridHeight e ≤ 32767 →
   ∃ e', update e = Some e' ∧ oldGrid e' = fullGrid e).
Proof.
  assert (∀ h i t t', for_range h (λ j, updateCell i j) t = Some t' →
            oldGrid t' = oldGrid t) as Hcol.
  { intros h i t t'. apply for_loop_oldGrid. intros j u u'. apply updateCell_oldGrid. }
  split; [|split; [|split]].
  - intros t cc v t' (g & _ & ->)%writeGrid_Some. done.
  - intros kw kh t t' Hcols Hcells.
    apply for_loop_oldGrid in Hcols; [|intros i u u'; apply Hcol].
    apply for_loop_oldGrid in Hcells; [|intros j u u'; apply updateCell_oldGrid].
    assert (oldGrid t' = fullGrid e) as Hold by (by rewrite Hcells, Hcols).
    split; [done|]. intros cc. unfold readGrid. by rewrite Hold.
  - intros e' Hrun. unfold update, for_range in Hrun.
    apply for_loop_oldGrid in Hrun; [done|]. intros i u u'; apply Hcol.
  - intros Hwf Hw Hh. destruct (update_total e Hwf Hw Hh) as (g & Hrun & _).
    eexists. split; [done|]. done.
Qed.

Lemma update_dims e e' :
  wf e → update e = Some e' →
  gridWidth e' = gridWidth e ∧ gridHeight e' = gridHeight e.
Proof.
  intros Hwf Hrun. destruct (update_Some e e' Hwf Hrun) as (Heq & _).
  by rewrite Heq.
Qed.

Lemma updates_wf n e e' :
  wf e → updates n e = Some e' →
  wf e' ∧ gridWidth e' = gridWidth e ∧ gridHeight e' = gridHeight e.
Proof.
  revert e. induction n as [|n IH]; intros e Hwf Hrun; simpl in Hrun.
  - by injection Hrun as <-.
  - destruct (update e) as [e1|] eqn:He1; [|done]. simpl in Hrun.
    destruct (update_dims e e1 Hwf He1) as [Hw Hh].
    destruct (IH e1) as (Hwf' & Hw' & Hh'); [by eapply update_wf|done|].
    split; [done|]. split; congruence.
Qed.

Lemma Conway_ctor_Some w h :
  0 ≤ w → 0 ≤ h →
  Conway_ctor w h =
    Some {| coords := neighbor_offsets;
            newGrid := replicate (Z.to_nat w) (replicate (Z.to_nat h) 0);
            oldGrid := replicate (Z.to_nat w) (replicate (Z.to_nat h) 0);
            gridWidth := w; gridHeight := h |}.
Proof.
  intros Hw Hh. unfold Conway_ctor, vec_new.
  rewrite !decide_False by lia. simpl. by rewrite !decide_False by lia.
Qed.

Lemma Conway_ctor_None w h : w < 0 ∨ h < 0 → Conway_ctor w h = None.
Proof.
  intros Hneg. unfold Conway_ctor, vec_new.
  destruct (decide (h < 0)); [done|]. simpl.
  destruct (decide (w < 0)); [done|lia].
Qed.

Lemma replicate_grid_shape w h v :
  0 ≤ w → 0 ≤ h →
  grid_shape w h (replicate (Z.to_nat w) (replicate (Z.to_nat h) v)).
Proof.
  intros Hw Hh. split.
  - rewrite length_replicate. lia.
  - apply Forall_replicate. rewrite length_replicate. lia.
Qed.

Lemma Conway_ctor_wf w h e :
  Conway_ctor w h = Some e → wf e ∧ gridWidth e = w ∧ gridHeight e = h.
Proof.
  intros He.
  destruct (decide (w < 0 ∨ h < 0)) as [Hneg|Hpos].
  { by rewrite Conway_ctor_None in He. }
  rewrite Conway_ctor_Some in He by lia. injection He as <-.
  split; [|done]. split; [done|].
  split; apply replicate_grid_shape; lia.
Qed.

(** C1, as the specification states it, fails: not on every constructed
    engine does [update()] write a next generation.  On an engine one cell
    wide or high, and on one 32768 cells wide, whose column index no longer
    fits the [short] of a [Coord], the call reads outside the grids. *)
Lemma update_undefined_on_constructed_engines :
  (e ← Conway_ctor 1 5; update e) = None ∧
  (e ← Conway_ctor 5 1; update e) = None ∧
  (e ← Conway_ctor 32768 2; update e) = None ∧
  ¬ (∀ w h e, Conway_ctor w h = Some e → is_Some (update e)).
Proof.
  split; [by vm_compute|]. split; [by vm_compute|]. split.
  - destruct (Conway_ctor 32768 2) as [e|] eqn:He; [|done]. simpl.
    apply Conway_ctor_wf in He as (Hwf & Hw & Hh).
    destruct (update e) as [e'|] eqn:Hrun; [|done].
    apply update_defined_dims in Hrun; [lia|done|lia|lia].
  - intros Hall.
    destruct (Hall 1 5 _ (Conway_ctor_Some 1 5 ltac:(lia) ltac:(lia))) as [e' He'].
    vm_compute in He'. discriminate.
Qed.

(** ** Random initialization *)

Section RandomizeProperties.
Context `{RandomSource}.

Lemma rng_after_S a b g n :
  rng_after a b g (S n) = (uniform_int a b (rng_after a b g n)).2.
Proof. revert g. induction n as [|n IH]; intros g; [done|]. simpl. by rewrite <- IH. Qed.

Lemma randomCell_Some sparseness i j g e w h :
  grid_shape w h (newGrid e) → grid_shape w h (oldGrid e) →
  0 ≤ i < w → 0 ≤ j < h →
  ∃ n o, let v := if decide (to_short (uniform_int 0 sparseness g).1 = 0) then 1 else 0 in
    grid_set (newGrid e) i j v = Some n ∧ grid_set (oldGrid e) i j v = Some o ∧
    randomCell sparseness i j (g, e) =
      Some ((uniform_int 0 sparseness g).2,
            {| coords := coords e; newGrid := n; oldGrid := o;
               gridWidth := gridWidth e; gridHeight := gridHeight e |}).
Proof.
  intros Hn Ho Hi Hj. unfold randomCell. simpl.
  destruct (uniform_int 0 sparseness g) as [r g'] eqn:Hr. simpl.
  destruct (grid_set_in_range _ _ (newGrid e) i j
    (if decide (to_short r = 0) then 1 else 0) Hn Hi Hj) as [n Hsetn].
  destruct (grid_set_in_range _ _ (oldGrid e) i j
    (if decide (to_short r = 0) then 1 else 0) Ho Hi Hj) as [o Hseto].
  exists n, o. split; [done|]. split; [done|].
  destruct (decide (to_short r = 0)); rewrite Hsetn, Hseto; done.
Qed.

(** On any well-formed engine the loops of [randomInitialization] complete,
    consume one draw per cell, and leave [randomGrid] in both buffers. *)
Lemma randomFill_total g sparseness e :
  wf e →
  randomFill g sparseness e =
    Some (rng_after 0 sparseness g (Z.to_nat (gridWidth e * gridHeight e)),
          {| coords := coords e;
             newGrid := randomGrid g sparseness (gridWidth e) (gridHeight e);
             oldGrid := randomGrid g sparseness (gridWidth e) (gridHeight e);
             gridWidth := gridWidth e; gridHeight := gridHeight e |}).
Proof.
  intros (Hc & Hnew & Hold). unfold randomFill.
  set (w := gridWidth e). set (h := gridHeight e).
  assert (0 ≤ w) as Hw by (by eapply grid_shape_nonneg).
  destruct (decide (w = 0)) as [Hw0|Hw0].
  { (* no column: both grids are empty and no draw is made *)
    subst w h. rewrite Hw0 in *. unfold for_range, randomGrid, grid_of. simpl.
    apply grid_shape_empty in Hnew, Hold.
    destruct e; simpl in *. by subst. }
  assert (0 ≤ h) as Hh.
  { destruct (grid_shape_dims _ _ _ Hnew) as [?|?]; [done|lia]. }
  pose (rv := λ x y : Z,
    if decide (to_short (draw 0 sparseness g (Z.to_nat (x * h + y))) = 0) then 1 else 0).
  pose (Inv := λ (i j : Z) (st : rng * Conway),
    st.1 = rng_after 0 sparseness g (Z.to_nat (i * h + j)) ∧
    coords st.2 = coords e ∧ gridWidth st.2 = w ∧ gridHeight st.2 = h ∧
    grid_shape w h (newGrid st.2) ∧ grid_shape w h (oldGrid st.2) ∧
    ∀ x y, 0 ≤ x < w → 0 ≤ y < h → done_before i j x y →
      grid_get (newGrid st.2) x y = Some (rv x y) ∧
      grid_get (oldGrid st.2) x y = Some (rv x y)).
  destruct (for_range_total (λ i st, Inv i 0 st)
    (λ i, for_range h (λ j, randomCell sparseness i j)) w (g, e))
    as ([g' e'] & Hrun & Hg' & Hc' & Hw' & Hh' & Hn' & Ho' & Hcells); simpl in *.
  - done.
  - split_and!; try done. intros x y Hx Hy [?|[? ?]]; lia.
  - intros i [gi t] Hi HInv.
    destruct (for_range_total (λ j st, Inv i j st) (λ j, randomCell sparseness i j)
      h (gi, t)) as (st' & Hcol & HInv').
    + done.
    + exact HInv.
    + intros j [gj u] Hj (Hgj & Hcu & Hwu & Hhu & Hnu & Hou & Hcellsu); simpl in *.
      destruct (randomCell_Some sparseness i j gj u w h) as (n & o & Hsetn & Hseto & Hcell);
        [done..|].
      eexists. split; [exact Hcell|]. unfold Inv; simpl.
      assert (0 ≤ i * h + j) as Hk by nia.
      split_and!; [|done|done|done| | |].
      { replace (Z.to_nat (i * h + (j + 1))) with (S (Z.to_nat (i * h + j))) by lia.
        by rewrite rng_after_S, Hgj. }
      { exact (grid_set_shape _ _ _ _ _ _ _ Hnu Hsetn). }
      { exact (grid_set_shape _ _ _ _ _ _ _ Hou Hseto). }
      intros x y Hx Hy Hdone.
      rewrite (grid_get_set _ _ _ _ _ x y Hsetn), (grid_get_set _ _ _ _ _ x y Hseto).
      destruct (decide (x = i ∧ y = j)) as [[-> ->]|Hxy].
      * subst gj. done.
      * apply Hcellsu; [done..|]. unfold done_before in *. lia.
    + exists st'. split; [done|].
      destruct st' as [g' t']. destruct HInv' as (Hg' & ? & ? & ? & ? & ? & Hcells).
      simpl in *. split_and!; try done.
      * simpl. rewrite Hg'. f_equal. lia.
      * intros x y Hx Hy Hdone. apply Hcells; [done..|].
        unfold done_before in *. lia.
  - rewrite Hrun. f_equal. f_equal.
    + rewrite Hg'. f_equal. f_equal. lia.
    + destruct e' as [c n o w' h']; simpl in *. subst c w' h'.
      assert (∀ g0, grid_shape w h g0 →
        (∀ x y, 0 ≤ x < w → 0 ≤ y < h → grid_get g0 x y = Some (rv x y)) →
        g0 = randomGrid g sparseness w h) as Hext.
      { intros g0 Hs Hv. eapply grid_ext; [done|by apply grid_of_shape|].
        intros x y Hx Hy. unfold randomGrid.
        by rewrite Hv, grid_get_grid_of by done. }
      f_equal; apply Hext; try done.
      * intros x y Hx Hy. apply Hcells; [done..|]. unfold done_before. lia.
      * intros x y Hx Hy. apply Hcells; [done..|]. unfold done_before. lia.
Qed.

Lemma randomInitialization_total sparseness e :
  wf e → 0 ≤ sparseness →
  randomInitialization sparseness e =
    Some {| coords := coords e;
            newGrid := randomGrid default_random_engine sparseness (gridWidth e) (gridHeight e);
            oldGrid := randomGrid default_random_engine sparseness (gridWidth e) (gridHeight e);
            gridWidth := gridWidth e; gridHeight := gridHeight e |}.
Proof.
  intros Hwf Hs. unfold randomInitialization.
  rewrite decide_False by lia. by rewrite randomFill_total.
Qed.

Lemma randomGrid_shape g sparseness w h :
  0 ≤ w → w = 0 ∨ 0 ≤ h → grid_shape w h (randomGrid g sparseness w h).
Proof.
  intros Hw [->|Hh]; [|by apply grid_of_shape].
  unfold randomGrid, grid_of. simpl. by split.
Qed.

Lemma randomized_wf g sparseness e :
  wf e →
  wf {| coords := coords e;
        newGrid := randomGrid g sparseness (gridWidth e) (gridHeight e);
        oldGrid := randomGrid g sparseness (gridWidth e) (gridHeight e);
        gridWidth := gridWidth e; gridHeight := gridHeight e |}.
Proof.
  intros (Hc & Hnew & Hold). split; [done|]. simpl.
  split; apply randomGrid_shape;
    (by eapply grid_shape_nonneg) || (by eapply grid_shape_dims).
Qed.

Lemma randomGrid_get g sparseness w h i j :
  0 ≤ i < w → 0 ≤ j < h →
  grid_get (randomGrid g sparseness w h) i j =
    Some (if decide (to_short (draw 0 sparseness g (Z.to_nat (i * h + j))) = 0)
          then 1 else 0).
Proof. intros Hi Hj. unfold randomGrid. by rewrite grid_get_grid_of. Qed.

Lemma draw_bounds a b g n : a ≤ b → a ≤ draw a b g n ≤ b.
Proof. intros Hab. unfold draw. by apply uniform_int_bounds. Qed.

(** C6. A call of [randomInitialization(sparseness)] (the spec's
    [randomize]) with [sparseness ≥ 1] (a [short]), on an engine in any
    state: it completes; each cell of both buffers is overwritten with 1
    when the cell's draw, a value between 0 and [sparseness], is 0 and with
    0 otherwise; the two buffers are equal afterwards; and nothing of the
    prior state survives, for the result is the same from any other engine
    of the same dimensions. *)
Theorem randomInitialization_overwrites (sparseness : Z) (e : Conway) :
  wf e → 1 ≤ sparseness ≤ 32767 →
  ∃ e', randomInitialization sparseness e = Some e' ∧
    wf e' ∧ gridWidth e' = gridWidth e ∧ gridHeight e' = gridHeight e ∧
    newGrid e' = oldGrid e' ∧
    (∀ i j, 0 ≤ i < gridWidth e → 0 ≤ j < gridHeight e →
       let d := draw 0 sparseness default_random_engine (Z.to_nat (i * gridHeight e + j)) in
       0 ≤ d ≤ sparseness ∧
       grid_get (newGrid e') i j = Some (if decide (d = 0) then 1 else 0) ∧
       grid_get (oldGrid e') i j = Some (if decide (d = 0) then 1 else 0)) ∧
    (∀ e0, wf e0 → gridWidth e0 = gridWidth e → gridHeight e0 = gridHeight e →
       randomInitialization sparseness e0 = Some e').
Proof.
  intros Hwf Hs. eexists. split; [apply randomInitialization_total; [done|lia]|].
  split; [by apply randomized_wf|]. simpl.
  split; [done|]. split; [done|]. split; [done|]. split.
  - intros i j Hi Hj.
    pose proof (draw_bounds 0 sparseness default_random_engine
                  (Z.to_nat (i * gridHeight e + j))) as Hd.
    split; [apply Hd; lia|]. rewrite randomGrid_get by done.
    rewrite to_short_id by lia. done.
  - intros e0 Hwf0 Hw0 Hh0. rewrite randomInitialization_total by (done || lia).
    destruct Hwf as (Hc & _), Hwf0 as (Hc0 & _). by rewrite Hw0, Hh0, Hc, Hc0.
Qed.

(** C8. Two engines of the same width and height, in whatever state, whose
    [randomInitialization] loops are run with the same sparseness on
    generators in the same state [g] (the same random-number stream): both
    runs complete and leave identical engines (and generators in the same
    state), and after any equal number of [update()] calls the two engines
    are still identical. *)
Theorem randomize_and_steps_deterministic (g : rng) (sparseness : Z) (e1 e2 : Conway) :
  wf e1 → wf e2 → 0 ≤ sparseness →
  gridWidth e1 = gridWidth e2 → gridHeight e1 = gridHeight e2 →
  ∃ g1 r1 g2 r2,
    randomFill g sparseness e1 = Some (g1, r1) ∧
    randomFill g sparseness e2 = Some (g2, r2) ∧
    g1 = g2 ∧ r1 = r2 ∧ fullGrid r1 = fullGrid r2 ∧
    ∀ n, updates n r1 = updates n r2.
Proof.
  intros Hwf1 Hwf2 Hs Hw Hh. do 4 eexists.
  split; [by apply randomFill_total|]. split; [by apply randomFill_total|].
  destruct Hwf1 as (Hc1 & _), Hwf2 as (Hc2 & _).
  rewrite Hw, Hh, Hc1, Hc2. done.
Qed.

(** C9. [randomInitialization] binds a freshly default-constructed engine
    on every call, so its result depends on the width, the height and the
    sparseness only: on two engines of the same dimensions, in whatever
    state, two calls with the same sparseness give the same result; and a
    reset, that is a further call after any number of [update()] calls,
    restores exactly the grid the first call produced. *)
Theorem randomInitialization_same_pattern (sparseness : Z) (e1 e2 : Conway) :
  wf e1 → wf e2 →
  gridWidth e1 = gridWidth e2 → gridHeight e1 = gridHeight e2 →
  randomInitialization sparseness e1 = randomInitialization sparseness e2 ∧
  (0 ≤ sparseness →
   ∃ r, randomInitialization sparseness e1 = Some r ∧
        ∀ n e, updates n r = Some e → randomInitialization sparseness e = Some r).
Proof.
  intros Hwf1 Hwf2 Hw Hh. split.
  - unfold randomInitialization. case_decide; [done|].
    rewrite !randomFill_total by done.
    destruct Hwf1 as (Hc1 & _), Hwf2 as (Hc2 & _). by rewrite Hw, Hh, Hc1, Hc2.
  - intros Hs. eexists. split; [by apply randomInitialization_total|].
    intros n e Hrun.
    apply updates_wf in Hrun as (Hwf & Hw' & Hh'); [|by apply randomized_wf].
    rewrite randomInitialization_total by done. simpl in *.
    destruct Hwf as (Hc & _), Hwf1 as (Hc1 & _). by rewrite Hw', Hh', Hc, Hc1.
Qed.

(** C10. Every cell of both buffers always holds 0 or 1: the constructor
    fills both buffers with 0; [randomInitialization] leaves 0 or 1 in every
    cell of both buffers; and [update()] writes 0 or 1 to every cell of the
    write target, whatever it held, and leaves the other buffer as it was, so
    a completed call keeps both buffers binary. *)
Theorem cells_are_binary :
  (∀ w h e, Conway_ctor w h = Some e →
     binary_grid (newGrid e) ∧ binary_grid (oldGrid e) ∧
     ∀ i j v, grid_get (newGrid e) i j = Some v ∨ grid_get (oldGrid e) i j = Some v → v = 0) ∧
  (∀ sparseness e e', wf e → randomInitialization sparseness e = Some e' →
     binary_grid (newGrid e') ∧ binary_grid (oldGrid e')) ∧
  (∀ e e', wf e → update e = Some e' →
     binary_grid (newGrid e') ∧ (binary_grid (newGrid e) → binary_grid (oldGrid e'))) ∧
  (∀ e, wf e → 2 ≤ gridWidth e ≤ 32767 → 2 ≤ gridHeight e ≤ 32767 →
     binary_grid (newGrid e) →
     ∃ e', update e = Some e' ∧ binary_grid (newGrid e') ∧ binary_grid (oldGrid e')).
Proof.
  assert (∀ g sparseness w h, binary_grid (randomGrid g sparseness w h)) as Hrand.
  { intros g sparseness w h. unfold randomGrid, grid_of, binary_grid.
    apply Forall_fmap, Forall_forall. intros x _. simpl.
    apply Forall_fmap, Forall_forall. intros y _. simpl. case_decide; auto. }
  assert (∀ e e', wf e → update e = Some e' → binary_grid (newGrid e')) as Hupd.
  { intros e e' Hwf Hrun. apply binary_grid_get. intros i j v Hv.
    destruct (update_Some e e' Hwf Hrun) as (_ & Hg & Hcells).
    destruct (grid_get_bound _ _ _ _ _ _ Hg Hv) as [Hi Hj].
    destruct (Hcells i j Hi Hj) as [Hget _]. rewrite Hget in Hv.
    by eapply nextCell_binary. }
  split_and!.
  - intros w h e He.
    destruct (decide (w < 0 ∨ h < 0)) as [Hneg|Hpos].
    { by rewrite Conway_ctor_None in He. }
    rewrite Conway_ctor_Some in He by lia. injection He as <-. simpl.
    assert (∀ i j v, grid_get (replicate (Z.to_nat w) (replicate (Z.to_nat h) 0)) i j
                       = Some v → v = 0) as Hzero.
    { intros i j v (col & [_ Hcol]%vec_get_Some & [_ Hv]%vec_get_Some)%grid_get_Some.
      apply lookup_replicate in Hcol as [-> _].
      by apply lookup_replicate in Hv as [-> _]. }
    split_and!.
    + apply binary_grid_get. intros i j v Hv. left. by eapply Hzero.
    + apply binary_grid_get. intros i j v Hv. left. by eapply Hzero.
    + intros i j v [Hv|Hv]; by eapply Hzero.
  - intros sparseness e e' Hwf Hrun. unfold randomInitialization in Hrun.
    case_decide; [done|]. rewrite randomFill_total in Hrun by done.
    injection Hrun as <-. simpl. split; apply Hrand.
  - intros e e' Hwf Hrun. split; [by eapply Hupd|].
    destruct (update_Some e e' Hwf Hrun) as (Heq & _). by rewrite Heq.
  - intros e Hwf Hw Hh Hbin.
    destruct (update_total e Hwf Hw Hh) as (g & Hrun & _).
    eexists. split; [exact Hrun|]. split; [|done].
    by apply (Hupd e _ Hwf Hrun).
Qed.

End RandomizeProperties.

(** ** The block still life *)




Lemma neighborIndex_self d x : 0 ≤ x < d → neighborIndex d (x + 0) = x.
Proof. intros Hx. unfold neighborIndex. repeat case_decide; lia. Qed.





(** ** The constructor *)

(** C4, as the code has it.  The constructor validates nothing.  For every
    non-negative width and height, zero included, it succeeds, with two
    grids of [width] columns of [height] cells that are all dead (empty
    grids for a zero dimension).  Only a negative dimension fails, and it
    fails in the allocation of the vectors. *)
Theorem Conway_ctor_allocates (w h : Z) :
  (0 ≤ w → 0 ≤ h →
   ∃ e, Conway_ctor w h = Some e ∧ wf e ∧ gridWidth e = w ∧ gridHeight e = h ∧
        ∀ i j, 0 ≤ i < w → 0 ≤ j < h →
          grid_get (newGrid e) i j = Some 0 ∧ grid_get (oldGrid e) i j = Some 0) ∧
  (w < 0 ∨ h < 0 → Conway_ctor w h = None).
Proof.
  split; [|apply Conway_ctor_None].
  intros Hw Hh. eexists. split; [by apply Conway_ctor_Some|].
  split; [|split; [done|split; [done|]]].
  - split; [done|]. split; by apply replicate_grid_shape.
  - intros i j Hi Hj. simpl.
    assert (grid_get (replicate (Z.to_nat w) (replicate (Z.to_nat h) 0)) i j = Some 0)
      as Hget; [|done].
    unfold grid_get, vec_get. rewrite decide_True by lia.
    rewrite lookup_replicate_2 by lia. simpl.
    rewrite decide_True by lia. by rewrite lookup_replicate_2 by lia.
Qed.

(** C4, as the specification states it, fails: a zero width is accepted. *)
Lemma Conway_ctor_accepts_zero_width :
  Conway_ctor 0 3 =
    Some {| coords := neighbor_offsets; newGrid := []; oldGrid := [];
            gridWidth := 0; gridHeight := 3 |} ∧
  ¬ (∀ w h, w ≤ 0 ∨ h ≤ 0 → Conway_ctor w h = None).
Proof.
  split; [done|]. intros Hrej. by specialize (Hrej 0 3 (or_introl (Z.le_refl 0))).
Qed.

(** ** Coordinates below zero *)

Lemma verifyBound_minus_one d : verifyBound d (-1) = Some (to_short (d - 2)).
Proof. unfold verifyBound. simpl. f_equal. f_equal. lia. Qed.

(** C2, at the failing input.  On a 3×3 engine [verifyCoordBounds] sends
    the neighbour [(0 - 1, 0 - 1)] of cell [(0, 0)] to [(1, 1)], not to
    [(2, 2)]: a component one below 0 goes to the dimension minus 2.  A
    component equal to the dimension does go to 0, so with [(0, 0)] the only
    live cell the count of [(2, 2)] is 1; with [(2, 2)] the only live cell
    the count of [(0, 0)] is 0.  In general, for a dimension [d] from 2 to
    32767, -1 goes to [d - 2], and a [short] at or above [d] goes to its
    value modulo [d]. *)
Theorem verifyCoordBounds_3x3_minus_one :
  (e ← Conway_ctor 3 3; verifyCoordBounds e (make_coord (0 + -1) (0 + -1))) = Some (1, 1) ∧
  (e ← Conway_ctor 3 3; verifyCoordBounds e (make_coord (2 + 1) (2 + 1))) = Some (0, 0) ∧
  countLiveNeighbors (only_alive 3 3 0 0) 2 2 = Some 1 ∧
  countLiveNeighbors (only_alive 3 3 2 2) 0 0 = Some 0 ∧
  (∀ d, 2 ≤ d ≤ 32767 → verifyBound d (-1) = Some (d - 2)) ∧
  (∀ d x, 0 < d → d ≤ x ≤ 32767 → verifyBound d x = Some (x `mod` d)).
Proof.
  do 4 (split; [by vm_compute|]). split.
  - intros d Hd. rewrite verifyBound_minus_one, to_short_id by lia. done.
  - intros d x Hd Hx. unfold verifyBound.
    rewrite decide_False, decide_True, decide_False by lia.
    rewrite Z.rem_mod_nonneg by lia.
    pose proof (Z.mod_pos_bound x d). rewrite to_short_id by lia. done.
Qed.

(** C5, at the failing input.  [Conway(1, 1)] succeeds, but on that engine
    [verifyCoordBounds] leaves a component of -1 at -1: the read of that
    neighbour is outside the grid, and so the neighbour count and
    [update()] are undefined.  (The offsets without a -1 do resolve to the
    lone cell.) *)
Theorem one_by_one_reads_outside :
  (∃ e, Conway_ctor 1 1 = Some e ∧ wf e) ∧
  (e ← Conway_ctor 1 1; verifyCoordBounds e (make_coord (0 + 0) (0 + -1))) = Some (0, -1) ∧
  (e ← Conway_ctor 1 1; verifyCoordBounds e (make_coord (0 + 1) (0 + 1))) = Some (0, 0) ∧
  (e ← Conway_ctor 1 1; readGrid e (0, -1)) = None ∧
  (e ← Conway_ctor 1 1; countLiveNeighbors (swapGrids e) 0 0) = None ∧
  (e ← Conway_ctor 1 1; update e) = None ∧
  update (only_alive 1 1 0 0) = None.
Proof.
  split; [|by vm_compute].
  eexists. split; [by apply Conway_ctor_Some|].
  split; [done|]. split; by apply replicate_grid_shape.
Qed.

(** ** Concrete runs *)

Example blinker_oscillates :
  fullGrid <$> update blinker =
    Some [[0; 0; 0; 0; 0]; [0; 0; 1; 0; 0]; [0; 0; 1; 0; 0]; [0; 0; 1; 0; 0]; [0; 0; 0; 0; 0]] ∧
  fullGrid <$> updates 2 blinker = Some (fullGrid blinker).
Proof. by vm_compute. Qed.

Example lone_cell_dies_3x3 :
  fullGrid <$> update (only_alive 3 3 0 0) = Some [[0; 0; 0]; [0; 0; 0]; [0; 0; 0]].
Proof. by vm_compute. Qed.

Example lehmer_randomize_5x5 :
  fullGrid <$> randomInitialization 2 blinker =
    Some [[0; 0; 0; 0; 0]; [0; 1; 0; 0; 0]; [1; 0; 1; 0; 1]; [0; 0; 0; 0; 0]; [1; 0; 1; 0; 0]].
Proof. by vm_compute. Qed.

Lemma update_transition_rule_witness :
  wf blinker ∧
  ∃ e', update blinker = Some e' ∧
    ∃ a n v,
      grid_get (fullGrid blinker) 1 2 = Some a ∧
      countLiveNeighbors (swapGrids blinker) 1 2 = Some n ∧
      grid_get (fullGrid e') 1 2 = Some v ∧
      (v = 1 ↔ (a ≠ 0 ∧ (n = 2 ∨ n = 3)) ∨ (a = 0 ∧ n = 3)) ∧
      (v ≠ 1 → v = 0).
Proof.
  assert (wf blinker) as Hwf by by_evaluation.
  split; [exact Hwf|].
  destruct (update_transition_rule blinker Hwf) as [Htot Hrule].
  destruct Htot as [e' Hrun]; [simpl; lia..|].
  exists e'. split; [exact Hrun|].
  apply (Hrule e' Hrun 1 2); simpl; lia.
Defined.

Lemma randomInitialization_overwrites_witness :
  wf blinker ∧ 1 ≤ 2 ≤ 32767 ∧
  ∃ e', randomInitialization 2 blinker = Some e' ∧ newGrid e' = oldGrid e'.
Proof.
  assert (wf blinker) as Hwf by by_evaluation.
  assert (1 ≤ 2 ≤ 32767) as Hs by lia.
  split; [exact Hwf|]. split; [exact Hs|].
  destruct (@randomInitialization_overwrites lehmer_source 2 blinker Hwf Hs)
    as (e' & Hrun & _ & _ & _ & Heq & _).
  exists e'. split; [exact Hrun|exact Heq].
Defined.


Lemma randomize_and_steps_deterministic_witness :
  wf blinker ∧ wf (block_engine 5 5 1 1) ∧ 0 ≤ 2 ∧
  ∃ r, snd <$> randomFill (default_random_engine : rng) 2 blinker = Some r ∧
       snd <$> randomFill (default_random_engine : rng) 2 (block_engine 5 5 1 1) = Some r.
Proof.
  assert (wf blinker) as Hwf1 by by_evaluation.
  assert (wf (block_engine 5 5 1 1)) as Hwf2 by by_evaluation.
  split; [exact Hwf1|]. split; [exact Hwf2|]. split; [lia|].
  destruct (@randomize_and_steps_deterministic lehmer_source default_random_engine 2
              blinker (block_engine 5 5 1 1) Hwf1 Hwf2)
    as (g1 & r1 & g2 & r2 & Hrun1 & Hrun2 & _ & Heq & _); [lia|reflexivity..|].
  exists r1. rewrite Hrun1, Hrun2, Heq. split; reflexivity.
Defined.

Lemma randomInitialization_same_pattern_witness :
  wf blinker ∧ wf (block_engine 5 5 1 1) ∧
  randomInitialization 2 blinker = randomInitialization 2 (block_engine 5 5 1 1).
Proof.
  assert (wf blinker) as Hwf1 by by_evaluation.
  assert (wf (block_engine 5 5 1 1)) as Hwf2 by by_evaluation.
  split; [exact Hwf1|]. split; [exact Hwf2|].
  apply (@randomInitialization_same_pattern lehmer_source 2 blinker
           (block_engine 5 5 1 1) Hwf1 Hwf2); reflexivity.
Defined.

(** * Further properties of the engine *)

(** ** Where [update()] is defined *)

Lemma for_loop_skip {St} k i0 (body : Z → St → option St) (s : St) :
  (∀ i t, body i t = Some t) → for_loop k i0 body s = Some s.
Proof.
  intros Hbody. revert i0. induction k as [|k IH]; intros i0; [done|].
  simpl. rewrite Hbody. simpl. apply IH.
Qed.

Lemma update_empty e :
  gridWidth e = 0 ∨ gridHeight e = 0 → update e = Some (swapGrids e).
Proof.
  intros Hdim. unfold update, for_range. simpl.
  destruct Hdim as [-> | ->]; [done|].
  apply for_loop_skip. intros i t. done.
Qed.

Lemma wf_dims_nonneg e :
  wf e → 0 ≤ gridWidth e ∧ (gridWidth e = 0 ∨ 0 ≤ gridHeight e).
Proof.
  intros (_ & Hnew & _). split; [by eapply grid_shape_nonneg|by eapply grid_shape_dims].
Qed.

(** X1. On a well-formed engine [update()] runs without an access outside
    the grids exactly when the grid is empty (a zero width or height) or
    both dimensions lie between 2 and 32767. *)
Theorem update_defined_iff (e : Conway) :
  wf e →
  (is_Some (update e) ↔
   gridWidth e = 0 ∨ gridHeight e = 0 ∨
   (2 ≤ gridWidth e ≤ 32767 ∧ 2 ≤ gridHeight e ≤ 32767)).
Proof.
  intros Hwf. split.
  - intros [e' Hrun]. destruct (wf_dims_nonneg e Hwf) as [Hw Hh].
    destruct (decide (gridWidth e = 0)); [by left|].
    destruct (decide (gridHeight e = 0)); [by right; left|].
    right; right. apply (update_defined_dims e e'); [done..|lia|lia].
  - intros [Hw|[Hh|[Hw Hh]]].
    + rewrite update_empty by (by left). done.
    + rewrite update_empty by (by right). done.
    + destruct (update_total e Hwf Hw Hh) as (g & -> & _). done.
Qed.

(** ** The next generation is a function of the current one *)

Lemma swapGrids_same_source e1 e2 :
  coords e1 = coords e2 → newGrid e1 = newGrid e2 →
  gridWidth e1 = gridWidth e2 → gridHeight e1 = gridHeight e2 →
  same_source (swapGrids e1) (swapGrids e2).
Proof. intros. by repeat split. Qed.

(** X2. The grid [update()] produces depends on the current grid and the
    dimensions only: two well-formed engines with the same current grid,
    whatever their other buffer holds, show the same grid after the call
    (and the call is undefined on both or on neither). *)
Theorem update_ignores_other_buffer (e1 e2 : Conway) :
  wf e1 → wf e2 → fullGrid e1 = fullGrid e2 →
  gridWidth e1 = gridWidth e2 → gridHeight e1 = gridHeight e2 →
  fullGrid <$> update e1 = fullGrid <$> update e2.
Proof.
  intros Hwf1 Hwf2 Hg Hw Hh. unfold fullGrid in Hg.
  destruct (decide (gridWidth e1 = 0 ∨ gridHeight e1 = 0)) as [Hempty|Hfull].
  - rewrite !update_empty by (rewrite <- ?Hw, <- ?Hh; done). simpl. f_equal.
    destruct Hwf1 as (_ & _ & Hold1), Hwf2 as (_ & _ & Hold2).
    rewrite <- Hw, <- Hh in Hold2.
    eapply grid_ext; [done..|]. intros x y Hx Hy. lia.
  - destruct (decide ((2 ≤ gridWidth e1 ≤ 32767) ∧ (2 ≤ gridHeight e1 ≤ 32767)))
      as [[Hw1 Hh1]|Hout].
    + destruct (update_total e1 Hwf1 Hw1 Hh1) as (g1 & -> & Hs1 & Hc1).
      destruct (update_total e2 Hwf2) as (g2 & -> & Hs2 & Hc2); [lia..|].
      simpl. f_equal. rewrite <- Hw, <- Hh in Hs2.
      eapply grid_ext; [done..|]. intros x y Hx Hy.
      rewrite Hc1, Hc2 by lia. apply nextCell_same.
      destruct Hwf1 as (Hco1 & _), Hwf2 as (Hco2 & _).
      apply swapGrids_same_source; congruence.
    + destruct (update e1) as [e1'|] eqn:He1.
      { destruct (wf_dims_nonneg e1 Hwf1).
        apply update_defined_dims in He1; [tauto|done|lia|lia]. }
      destruct (update e2) as [e2'|] eqn:He2; [|done].
      destruct (wf_dims_nonneg e2 Hwf2).
      apply update_defined_dims in He2; [|done|lia|lia].
      rewrite <- Hw, <- Hh in He2. tauto.
Qed.

(** ** The neighbourhood away from row and column 0 *)

Lemma neighborIndex_mod d x : 0 < d → 0 ≤ x ≤ d → neighborIndex d x = x `mod` d.
Proof.
  intros Hd Hx. unfold neighborIndex. rewrite decide_False by lia.
  case_decide as Hxd.
  - subst. by rewrite Z_mod_same_full.
  - by rewrite Z.mod_small by lia.
Qed.

Lemma liveAmong_bounds l g w h i j : 0 ≤ liveAmong l g w h i j ≤ Z.of_nat (length l).
Proof.
  induction l as [|cc l IH]; simpl; [lia|].
  pose proof (live_range g (neighborIndex w (i + cc.1)) (neighborIndex h (j + cc.2))).
  lia.
Qed.

Lemma liveAmong_torus l g w h i j :
  0 < w → 0 < h → 1 ≤ i < w → 1 ≤ j < h →
  (∀ cc, cc ∈ l → -1 ≤ cc.1 ≤ 1 ∧ -1 ≤ cc.2 ≤ 1) →
  liveAmong l g w h i j =
    foldr (λ cc n, live g ((i + cc.1) `mod` w) ((j + cc.2) `mod` h) + n) 0 l.
Proof.
  intros Hw Hh Hi Hj. induction l as [|cc l IH]; intros Hl; [done|].
  destruct (Hl cc) as [Hx Hy]; [by left|]. simpl.
  rewrite <- IH by (intros; apply Hl; by right). unfold liveAmong.
  by rewrite !neighborIndex_mod by lia.
Qed.

(** X3. For every cell outside column 0 and row 0 of a grid with
    dimensions from 2 to 32767, the count [update()] makes is the number of
    live cells among its eight neighbours on the torus (coordinates modulo
    the dimensions), a number from 0 to 8. *)
Theorem countLiveNeighbors_torus (e : Conway) (i j : Z) :
  wf e → 2 ≤ gridWidth e ≤ 32767 → 2 ≤ gridHeight e ≤ 32767 →
  1 ≤ i < gridWidth e → 1 ≤ j < gridHeight e →
  countLiveNeighbors e i j =
    Some (torusCount (oldGrid e) (gridWidth e) (gridHeight e) i j) ∧
  0 ≤ torusCount (oldGrid e) (gridWidth e) (gridHeight e) i j ≤ 8.
Proof.
  intros (Hc & _ & Hold) Hw Hh Hi Hj.
  assert (liveAmong neighbor_offsets (oldGrid e) (gridWidth e) (gridHeight e) i j =
          torusCount (oldGrid e) (gridWidth e) (gridHeight e) i j) as Heq.
  { apply liveAmong_torus; [lia..|]. apply neighbor_offsets_small. }
  split.
  - rewrite countLiveNeighbors_liveAmong by (done || lia). by rewrite Heq.
  - rewrite <- Heq.
    pose proof (liveAmong_bounds neighbor_offsets (oldGrid e)
                  (gridWidth e) (gridHeight e) i j) as Hb.
    change (Z.of_nat (length neighbor_offsets)) with 8 in Hb. lia.
Qed.

(** ** [verifyCoordBounds] on any [short] *)

(** X4. For a dimension [d] from 1 to 32767 and any [short] [x],
    [verifyCoordBounds] leaves an index [y] that lies inside [0 .. d - 1]
    exactly when [x ≥ 1 - d]; an index already inside is left as it is.  So
    the function repairs indices down to [-(d - 1)] (to [d - 1 + x]) and
    every index from [d] up, and nothing below. *)
Theorem verifyBound_in_bounds_iff (d x : Z) :
  1 ≤ d ≤ 32767 → -32768 ≤ x ≤ 32767 →
  ∃ y, verifyBound d x = Some y ∧
       (0 ≤ y < d ↔ 1 - d ≤ x) ∧
       (0 ≤ x < d → y = x) ∧
       (x < 0 → y = d - 1 + x) ∧
       (d ≤ x → y = x `mod` d).
Proof.
  intros Hd Hx. unfold verifyBound.
  destruct (decide (x < 0)).
  - eexists. split; [done|]. rewrite to_short_id by lia. split_and!; lia.
  - destruct (decide (d ≤ x)).
    + rewrite decide_False by lia. eexists. split; [done|].
      rewrite Z.rem_mod_nonneg by lia. pose proof (Z.mod_pos_bound x d).
      rewrite to_short_id by lia. split_and!; lia.
    + eexists. split; [done|]. split_and!; lia.
Qed.

(** ** Extinction *)

Lemma liveAmong_dead l g w h i j :
  (∀ x y, grid_get g x y ≠ Some 1) → liveAmong l g w h i j = 0.
Proof.
  intros Hdead. unfold liveAmong. induction l as [|cc l IH]; [done|]. simpl.
  rewrite IH. unfold live.
  rewrite decide_False by apply Hdead. done.
Qed.

(** X5. A grid with no live cell stays so: on dimensions from 2 to 32767,
    if every cell of the current grid holds 0, [update()] completes and the
    grid it shows is the same all-dead grid, whatever the other buffer
    held. *)
Theorem dead_grid_stays_dead (e : Conway) :
  wf e → 2 ≤ gridWidth e ≤ 32767 → 2 ≤ gridHeight e ≤ 32767 →
  (∀ i j v, grid_get (fullGrid e) i j = Some v → v = 0) →
  ∃ e', update e = Some e' ∧ fullGrid e' = fullGrid e.
Proof.
  intros Hwf Hw Hh Hdead. unfold fullGrid in *.
  destruct (update_total e Hwf Hw Hh) as (g & Hrun & Hg & Hcells).
  eexists. split; [exact Hrun|]. simpl.
  destruct Hwf as (Hc & Hnew & Hold).
  eapply grid_ext; [done..|]. intros x y Hx Hy. rewrite Hcells by done.
  destruct (grid_get_in_range _ _ (newGrid e) x y Hnew Hx Hy) as [v Hv].
  rewrite Hv. pose proof (Hdead x y v Hv) as ->.
  unfold nextCell, readGrid, make_coord. simpl. rewrite !to_short_id by lia.
  rewrite Hv. simpl.
  rewrite countLiveNeighbors_liveAmong by (done || (simpl; lia)).
  rewrite liveAmong_dead; [done|].
  simpl. intros x' y' Hv'. by apply Hdead in Hv'.
Qed.

(** ** Writing and reading back *)

(** X6. On a well-formed engine [writeGrid(cc, val)] is defined exactly for
    the coordinates inside the grid.  When it is, it leaves the read source
    and the dimensions alone, and once the buffers are swapped [readGrid]
    returns [val] at [cc] and what the write target held at every other
    coordinate. *)
Theorem writeGrid_then_read (e : Conway) (cc : Coord) (val : Z) :
  wf e →
  (is_Some (writeGrid e cc val) ↔
   0 ≤ cc.1 < gridWidth e ∧ 0 ≤ cc.2 < gridHeight e) ∧
  ∀ e', writeGrid e cc val = Some e' →
    wf e' ∧ oldGrid e' = oldGrid e ∧
    readGrid (swapGrids e') cc = Some val ∧
    ∀ cc', cc' ≠ cc → readGrid (swapGrids e') cc' = readGrid (swapGrids e) cc'.
Proof.
  intros (Hc & Hnew & Hold). split.
  - split.
    + intros [e' (g & Hset & _)%writeGrid_Some].
      exact (grid_set_bound _ _ _ _ _ _ _ Hnew Hset).
    + intros [Hx Hy].
      destruct (grid_set_in_range _ _ (newGrid e) cc.1 cc.2 val Hnew Hx Hy) as [g Hg].
      unfold writeGrid. rewrite Hg. done.
  - intros e' (g & Hset & ->)%writeGrid_Some. simpl. split_and!.
    + split; [done|]. split; [exact (grid_set_shape _ _ _ _ _ _ _ Hnew Hset)|done].
    + done.
    + unfold readGrid. simpl. rewrite (grid_get_set _ _ _ _ _ _ _ Hset).
      by rewrite decide_True.
    + intros cc' Hne. unfold readGrid. simpl.
      rewrite (grid_get_set _ _ _ _ _ _ _ Hset).
      rewrite decide_False; [done|]. destruct cc, cc'; simpl.
      intros [-> ->]. done.
Qed.

(** ** Patterns that are products of a row set and a column set *)

Lemma grid_of_ext w h f f' :
  0 ≤ w → 0 ≤ h →
  (∀ x y, 0 ≤ x < w → 0 ≤ y < h → f x y = f' x y) →
  grid_of w h f = grid_of w h f'.
Proof.
  intros Hw Hh Hf. eapply grid_ext; [by apply grid_of_shape..|].
  intros x y Hx Hy. by rewrite !grid_get_grid_of, Hf.
Qed.

Lemma live_product w h (P Q : Z → Z) x y :
  (∀ x, P x = 0 ∨ P x = 1) → (∀ y, Q y = 0 ∨ Q y = 1) →
  0 ≤ x < w → 0 ≤ y < h →
  live (grid_of w h (λ x y, P x * Q y)) x y = P x * Q y.
Proof.
  intros HP HQ Hx Hy. unfold live. rewrite grid_get_grid_of by done.
  destruct (HP x) as [-> | ->], (HQ y) as [-> | ->]; by case_decide.
Qed.

(** The count on a product pattern: the product of the two sums along the
    axes, less the cell itself. *)
Lemma product_nextCell e w h (P Q : Z → Z) i j :
  coords e = neighbor_offsets → gridWidth e = w → gridHeight e = h →
  oldGrid e = grid_of w h (λ x y, P x * Q y) →
  (∀ x, P x = 0 ∨ P x = 1) → (∀ y, Q y = 0 ∨ Q y = 1) →
  2 ≤ w ≤ 32767 → 2 ≤ h ≤ 32767 → 0 ≤ i < w → 0 ≤ j < h →
  nextCell e i j =
    Some (ruleValue (P i * Q j)
      ((P (neighborIndex w (i + -1)) + P i + P (neighborIndex w (i + 1))) *
       (Q (neighborIndex h (j + -1)) + Q j + Q (neighborIndex h (j + 1))) - P i * Q j)).
Proof.
  intros Hc Hw' Hh' Hold HP HQ Hw Hh Hi Hj.
  assert (grid_shape (gridWidth e) (gridHeight e) (oldGrid e)) as Hshape.
  { rewrite Hw', Hh', Hold. apply grid_of_shape; lia. }
  unfold nextCell. rewrite countLiveNeighbors_liveAmong by (done || lia).
  unfold readGrid, make_coord. rewrite Hw', Hh', Hold. simpl.
  rewrite !to_short_id by lia.
  rewrite grid_get_grid_of by done. simpl.
  rewrite !(live_product w h P Q) by (done || (apply neighborIndex_range; lia)).
  rewrite !neighborIndex_self by done.
  unfold ruleValue. f_equal.
  match goal with |- context [bool_decide (?n = 2)] =>
    replace n with
      ((P (neighborIndex w (i + -1)) + P i + P (neighborIndex w (i + 1))) *
       (Q (neighborIndex h (j + -1)) + Q j + Q (neighborIndex h (j + 1))) - P i * Q j)
      by ring
  end.
  done.
Qed.

(** [update()] on a current grid given cell by cell, when the value
    [nextCell] computes for every cell is known. *)
Lemma update_pattern e (f' : Z → Z → Z) :
  wf e → 2 ≤ gridWidth e ≤ 32767 → 2 ≤ gridHeight e ≤ 32767 →
  (∀ x y, 0 ≤ x < gridWidth e → 0 ≤ y < gridHeight e →
     nextCell (swapGrids e) x y = Some (f' x y)) →
  ∃ e', update e = Some e' ∧ wf e' ∧
        gridWidth e' = gridWidth e ∧ gridHeight e' = gridHeight e ∧
        fullGrid e' = grid_of (gridWidth e) (gridHeight e) f'.
Proof.
  intros Hwf Hw Hh Hnext.
  destruct (update_total e Hwf Hw Hh) as (g & Hrun & Hg & Hcells).
  eexists. split; [exact Hrun|]. split; [by eapply update_wf|].
  simpl. split; [done|]. split; [done|].
  eapply grid_ext; [done|apply grid_of_shape; lia|].
  intros x y Hx Hy. by rewrite Hcells, Hnext, grid_get_grid_of.
Qed.

Lemma only_binary a x : only a x = 0 ∨ only a x = 1.
Proof. unfold only. case_decide; auto. Qed.

Lemma around_binary a x : around a x = 0 ∨ around a x = 1.
Proof. unfold around. case_decide; auto. Qed.

(** ** A lone live cell *)

Lemma only_axis d a x :
  3 ≤ d → 0 ≤ a < d → 0 ≤ x < d →
  let p := only a (neighborIndex d (x + -1)) in
  let c := only a x in
  let n := only a (neighborIndex d (x + 1)) in
  (p = 0 ∨ p = 1) ∧ (c = 0 ∨ c = 1) ∧ (n = 0 ∨ n = 1) ∧ (c = 1 → p + n = 0).
Proof.
  intros Hd Ha Hx. unfold only, neighborIndex. repeat case_decide; lia.
Qed.

(** X7. A lone live cell dies and nothing is born: on dimensions from 3 to
    32767, if the current grid has exactly one live cell, anywhere, the
    grid after [update()] has none. *)
Theorem lone_cell_dies (e : Conway) (x0 y0 : Z) :
  wf e → 3 ≤ gridWidth e ≤ 32767 → 3 ≤ gridHeight e ≤ 32767 →
  0 ≤ x0 < gridWidth e → 0 ≤ y0 < gridHeight e →
  fullGrid e = grid_of (gridWidth e) (gridHeight e)
                 (λ x y, if decide (x = x0 ∧ y = y0) then 1 else 0) →
  ∃ e', update e = Some e' ∧
        fullGrid e' = grid_of (gridWidth e) (gridHeight e) (λ _ _, 0).
Proof.
  intros Hwf Hw Hh Hx0 Hy0 Hgrid. unfold fullGrid in Hgrid.
  destruct (update_pattern e (λ _ _, 0) Hwf) as (e' & Hrun & _ & _ & _ & Hfull);
    [lia..| |by exists e'].
  intros x y Hx Hy.
  rewrite (product_nextCell _ (gridWidth e) (gridHeight e) (only x0) (only y0));
    [|by destruct Hwf|done|done| |apply only_binary|apply only_binary|lia..].
  - f_equal.
    destruct (only_axis (gridWidth e) x0 x) as (Hp & Hc & Hn & Hmid); [lia..|].
    destruct (only_axis (gridHeight e) y0 y) as (Hp' & Hc' & Hn' & Hmid'); [lia..|].
    revert Hp Hc Hn Hmid Hp' Hc' Hn' Hmid'.
    generalize (only x0 (neighborIndex (gridWidth e) (x + -1))).
    generalize (only x0 (neighborIndex (gridWidth e) (x + 1))).
    generalize (only y0 (neighborIndex (gridHeight e) (y + -1))).
    generalize (only y0 (neighborIndex (gridHeight e) (y + 1))).
    generalize (only x0 x). generalize (only y0 y).
    intros cy cx ny py nx px.
    intros [-> | ->] [-> | ->] [-> | ->] Hmid [-> | ->] [-> | ->] [-> | ->] Hmid';
      first [done | lia].
  - simpl. rewrite Hgrid. apply grid_of_ext; [lia..|].
    intros x' y' _ _. unfold only. repeat case_decide; lia.
Qed.

(** ** The blinker *)

Lemma thin_axis d a x :
  5 ≤ d → 2 ≤ a ≤ d - 3 → 0 ≤ x < d →
  let s := only a (neighborIndex d (x + -1)) + only a x + only a (neighborIndex d (x + 1)) in
  s = around a x ∧ only a x ≤ s.
Proof.
  intros Hd Ha Hx. unfold only, around, neighborIndex. repeat case_decide; lia.
Qed.

Lemma wide_axis d a x :
  5 ≤ d → 2 ≤ a ≤ d - 3 → 0 ≤ x < d →
  let s := around a (neighborIndex d (x + -1)) + around a x + around a (neighborIndex d (x + 1)) in
  0 ≤ s ∧ (only a x = 1 → s = 3 ∧ around a x = 1) ∧ (only a x = 0 → s ≤ 2).
Proof.
  intros Hd Ha Hx. unfold only, around, neighborIndex. repeat case_decide; lia.
Qed.

Lemma line_rule ct st cw sw ow :
  (ct = 0 ∨ ct = 1) → (st = 0 ∨ st = 1) → ct ≤ st →
  (cw = 0 ∨ cw = 1) → (ow = 0 ∨ ow = 1) → 0 ≤ sw →
  (ow = 1 → sw = 3 ∧ cw = 1) → (ow = 0 → sw ≤ 2) →
  ruleValue (ct * cw) (st * sw - ct * cw) = st * ow.
Proof.
  intros Hct Hst Hle Hcw How Hsw H1 H0.
  assert (sw = 0 ∨ sw = 1 ∨ sw = 2 ∨ sw = 3) as Hcases by lia.
  destruct Hct as [-> | ->], Hst as [-> | ->], Hcw as [-> | ->], How as [-> | ->],
    Hcases as [-> | [-> | [-> | ->]]]; first [done | lia].
Qed.

Lemma line_v_step e a b :
  wf e → 5 ≤ gridWidth e ≤ 32767 → 5 ≤ gridHeight e ≤ 32767 →
  2 ≤ a ≤ gridWidth e - 3 → 2 ≤ b ≤ gridHeight e - 3 →
  fullGrid e = grid_of (gridWidth e) (gridHeight e) (line_v a b) →
  ∃ e', update e = Some e' ∧ wf e' ∧
        gridWidth e' = gridWidth e ∧ gridHeight e' = gridHeight e ∧
        fullGrid e' = grid_of (gridWidth e) (gridHeight e) (line_h a b).
Proof.
  intros Hwf Hw Hh Ha Hb Hgrid. unfold fullGrid in Hgrid.
  apply update_pattern; [done|lia|lia|]. intros x y Hx Hy.
  rewrite (product_nextCell _ (gridWidth e) (gridHeight e) (only a) (around b));
    [|by destruct Hwf|done|done|done|apply only_binary|apply around_binary|lia..].
  f_equal. unfold line_h.
  destruct (thin_axis (gridWidth e) a x) as [<- Hle]; [lia..|].
  destruct (wide_axis (gridHeight e) b y) as (Hs & H1 & H0); [lia..|].
  apply line_rule; [apply only_binary| |done|apply around_binary|apply only_binary|done..].
  destruct (thin_axis (gridWidth e) a x) as [-> _]; [lia..|]. apply around_binary.
Qed.

Lemma line_h_step e a b :
  wf e → 5 ≤ gridWidth e ≤ 32767 → 5 ≤ gridHeight e ≤ 32767 →
  2 ≤ a ≤ gridWidth e - 3 → 2 ≤ b ≤ gridHeight e - 3 →
  fullGrid e = grid_of (gridWidth e) (gridHeight e) (line_h a b) →
  ∃ e', update e = Some e' ∧ wf e' ∧
        gridWidth e' = gridWidth e ∧ gridHeight e' = gridHeight e ∧
        fullGrid e' = grid_of (gridWidth e) (gridHeight e) (line_v a b).
Proof.
  intros Hwf Hw Hh Ha Hb Hgrid. unfold fullGrid in Hgrid.
  apply update_pattern; [done|lia|lia|]. intros x y Hx Hy.
  rewrite (product_nextCell _ (gridWidth e) (gridHeight e) (around a) (only b));
    [|by destruct Hwf|done|done|done|apply around_binary|apply only_binary|lia..].
  f_equal. unfold line_v.
  destruct (thin_axis (gridHeight e) b y) as [<- Hle]; [lia..|].
  destruct (wide_axis (gridWidth e) a x) as (Hs & H1 & H0); [lia..|].
  rewrite (Z.mul_comm (around a x)), (Z.mul_comm (only a x)).
  rewrite (Z.mul_comm (_ + _ + _) (_ + _ + _)).
  apply line_rule; [apply only_binary| |done|apply around_binary|apply only_binary|done..].
  destruct (thin_axis (gridHeight e) b y) as [-> _]; [lia..|]. apply around_binary.
Qed.

(** X8. The blinker has period 2: on dimensions from 5 to 32767, if the
    current grid is three live cells in a column whose centre [(a, b)] is at
    least two cells away from every border, one [update()] shows the three
    cells in a row through the same centre and nothing else, and a second
    one shows the first grid again. *)
Theorem blinker_period_two (e : Conway) (a b : Z) :
  wf e → 5 ≤ gridWidth e ≤ 32767 → 5 ≤ gridHeight e ≤ 32767 →
  2 ≤ a ≤ gridWidth e - 3 → 2 ≤ b ≤ gridHeight e - 3 →
  fullGrid e = grid_of (gridWidth e) (gridHeight e) (line_v a b) →
  ∃ e1 e2, update e = Some e1 ∧
           fullGrid e1 = grid_of (gridWidth e) (gridHeight e) (line_h a b) ∧
           update e1 = Some e2 ∧ fullGrid e2 = fullGrid e.
Proof.
  intros Hwf Hw Hh Ha Hb Hgrid.
  destruct (line_v_step e a b) as (e1 & Hrun1 & Hwf1 & Hw1 & Hh1 & Hgrid1); [done..|].
  destruct (line_h_step e1 a b) as (e2 & Hrun2 & _ & _ & _ & Hgrid2);
    [done|lia|lia|lia|lia|by rewrite Hw1, Hh1|].
  exists e1, e2. rewrite Hw1, Hh1 in Hgrid2. by rewrite Hgrid.
Qed.

(** * Properties of the window and of the driving loop *)

(** ** [drawGrid] *)

Lemma drawGrid_shape_defined (grid : list (list Z)) (width height : Z) :
  grid_shape width height grid →
  ∃ pts, drawGrid grid width height = Some pts ∧ NoDup pts ∧
         ∀ i j, (i, j) ∈ pts ↔ grid_get grid i j = Some 1.
Proof.
  intros Hg. unfold drawGrid.
  pose (Inv := λ (i j : Z) (pts : list (Z * Z)),
    NoDup pts ∧
    ∀ x y, (x, y) ∈ pts ↔ done_before i j x y ∧ grid_get grid x y = Some 1).
  destruct (decide (width = 0)) as [->|Hw0].
  { exists []. unfold for_range. simpl. split; [done|]. split; [constructor|].
    intros i j. split; [by intros ?%elem_of_nil|].
    intros Hv. eapply grid_get_bound in Hv as [? _]; [|done]. lia. }
  assert (0 ≤ width) as Hw by (by eapply grid_shape_nonneg).
  assert (0 ≤ height) as Hh.
  { destruct (grid_shape_dims _ _ _ Hg); [done|lia]. }
  destruct (for_range_total (λ i pts, Inv i 0 pts)
    (λ i, for_range height (λ j, drawCell grid i j)) width [])
    as (pts & Hrun & Hnd & Hpts).
  - done.
  - split; [constructor|]. intros x y. split; [by intros ?%elem_of_nil|].
    intros [Hdone Hv]. eapply grid_get_bound in Hv as [? ?]; [|done].
    unfold done_before in Hdone. lia.
  - intros i pts Hi HInv.
    destruct (for_range_total (λ j pts, Inv i j pts) (λ j, drawCell grid i j)
      height pts) as (pts' & Hcol & Hnd' & Hpts').
    + done.
    + exact HInv.
    + intros j q Hj [Hnd' Hq]. unfold drawCell.
      destruct (grid_get_in_range _ _ grid i j Hg) as [v Hv]; [done..|].
      rewrite Hv. simpl. eexists. split; [done|].
      destruct (decide (v = 1)) as [->|Hv1].
      * split.
        -- apply NoDup_app. split; [done|]. split; [|apply NoDup_singleton].
           intros p Hp ->%list_elem_of_singleton.
           apply Hq in Hp as [Hdone _]. unfold done_before in Hdone. lia.
        -- intros x y. rewrite elem_of_app, list_elem_of_singleton, Hq.
           unfold done_before. split.
           ++ intros [[Hdone Hxy]|[= -> ->]]; [split; [lia|done]|split; [lia|done]].
           ++ intros [Hdone Hxy].
              destruct (decide (x = i ∧ y = j)) as [[-> ->]|Hne]; [by right|].
              left. split; [lia|done].
      * split; [done|]. intros x y. rewrite Hq. unfold done_before. split.
        -- intros [Hdone Hxy]. split; [lia|done].
        -- intros [Hdone Hxy]. split; [|done].
           destruct (decide (x = i ∧ y = j)) as [[-> ->]|Hne]; [congruence|lia].
    + exists pts'. split; [done|]. split; [done|]. intros x y.
      rewrite Hpts'. unfold done_before. split.
      * intros [Hdone Hxy]. split; [|done].
        eapply grid_get_bound in Hxy as [? ?]; [|done]. lia.
      * intros [Hdone Hxy]. split; [|done].
        eapply grid_get_bound in Hxy as [? ?]; [|done]. lia.
  - exists pts. split; [done|]. split; [done|]. intros i j. rewrite Hpts.
    unfold done_before. split; [by intros [_ ?]|].
    intros Hv. split; [|done].
    eapply grid_get_bound in Hv as [? ?]; [|done]. lia.
Qed.

(** X9. On a grid of [width] columns of [height] cells [drawGrid] reads
    inside the grid only and draws a point for a pair [(i, j)] exactly when
    the cell [(i, j)] holds 1, each point once.  Asked for more columns than
    the grid has, and at least one row, it reads outside the grid. *)
Theorem drawGrid_draws_live_cells (grid : list (list Z)) (width height : Z) :
  grid_shape width height grid →
  (∃ pts, drawGrid grid width height = Some pts ∧ NoDup pts ∧
          ∀ i j, (i, j) ∈ pts ↔ grid_get grid i j = Some 1) ∧
  (∀ width' height', width < width' → 0 < height' →
     drawGrid grid width' height' = None).
Proof.
  intros Hg. split; [by apply drawGrid_shape_defined|].
  intros width' height' Hw' Hh'.
  assert (0 ≤ width) as Hw by (by eapply grid_shape_nonneg).
  destruct (drawGrid grid width' height') as [pts|] eqn:Hrun; [|done].
  unfold drawGrid in Hrun.
  apply (for_range_partial (λ _ _, True)) in Hrun as [_ Hcols]; [|lia|done|done].
  destruct (Hcols width) as (t & t' & _ & Hcol); [lia|].
  apply (for_range_partial (λ _ _, True)) in Hcol as [_ Hcells]; [|lia|done|done].
  destruct (Hcells 0) as (u & u' & _ & Hcell); [lia|].
  unfold drawCell in Hcell.
  destruct (grid_get grid width 0) as [v|] eqn:Hv; [|done].
  eapply grid_get_bound in Hv as [? _]; [|done]. lia.
Qed.

(** ** The window of elapsed times *)

Lemma recordElapsed_cons {A} (t : A) (l : list A) :
  l ≠ [] → recordElapsed t l = Some (t :: take (length l - 1) l).
Proof.
  intros Hl. unfold recordElapsed, std_rotate.
  destruct (reverse l) as [|x r] eqn:Hr.
  { apply (f_equal reverse) in Hr. rewrite reverse_involutive in Hr. done. }
  assert (l = reverse r ++ [x]) as ->.
  { rewrite <- (reverse_involutive l), Hr. by rewrite reverse_cons. }
  simpl. rewrite drop_0, reverse_app. simpl.
  unfold vec_set. simpl. f_equal. f_equal.
  rewrite length_app. simpl.
  replace (length (reverse r) + 1 - 1)%nat with (length (reverse r)) by lia.
  by rewrite take_app_length.
Qed.

(** X10. The vector [elapsedTimes] is a sliding window, newest first: after
    the times [ts] have been recorded one by one (the rotate on reverse
    iterators, then the assignment to index 0) into a non-empty vector, it
    holds the most recent times in reverse order of arrival, followed by
    what is left of its first elements, and it keeps its length.  From the
    sixth frame on the vector of five holds the last five times exactly. *)
Theorem elapsedTimes_window {A} (ts elapsedTimes : list A) :
  elapsedTimes ≠ [] →
  for_each ts recordElapsed elapsedTimes =
    Some (take (length elapsedTimes) (reverse ts ++ elapsedTimes)) ∧
  (length elapsedTimes ≤ length ts →
   for_each ts recordElapsed elapsedTimes =
     Some (take (length elapsedTimes) (reverse ts)))%nat.
Proof.
  intros Hne.
  assert (for_each ts recordElapsed elapsedTimes =
    Some (take (length elapsedTimes) (reverse ts ++ elapsedTimes))) as Hrun.
  { revert elapsedTimes Hne. induction ts as [|t ts IH]; intros l Hl.
    - simpl. by rewrite take_ge.
    - simpl. rewrite recordElapsed_cons by done. simpl.
      assert (length l ≠ 0)%nat as Hlen by (by destruct l).
      rewrite IH by done. f_equal. simpl.
      rewrite length_take_le by lia.
      replace (S (length l - 1)) with (length l) by lia.
      rewrite reverse_cons, <- app_assoc. simpl.
      destruct (decide (length l ≤ length (reverse ts))%nat) as [Hle|Hgt].
      + by rewrite !take_app_le by done.
      + rewrite !take_app_ge by lia. f_equal.
        destruct (length l - length (reverse ts))%nat as [|k] eqn:Hk; [lia|].
        simpl. f_equal. rewrite take_take. f_equal. lia. }
  split; [done|]. intros Hlen. rewrite Hrun. f_equal.
  apply take_app_le. by rewrite length_reverse.
Qed.

Section MainProperties.
Context `{RandomSource}.
Variable SDLK_r : Z.
Variable arg : Type.
Variable atoi : arg → Z.

(** ** Random initialization, further *)

(** X11. With [sparseness = 0] every draw is 0, so [randomInitialization]
    makes every cell of both buffers alive, on any well-formed engine. *)
Theorem randomInitialization_zero_all_alive (e : Conway) :
  wf e →
  ∃ e', randomInitialization 0 e = Some e' ∧
    ∀ i j, 0 ≤ i < gridWidth e → 0 ≤ j < gridHeight e →
      grid_get (newGrid e') i j = Some 1 ∧ grid_get (oldGrid e') i j = Some 1.
Proof.
  intros Hwf. eexists. split; [by apply randomInitialization_total|].
  intros i j Hi Hj. simpl. rewrite randomGrid_get by done.
  pose proof (draw_bounds 0 0 default_random_engine
                (Z.to_nat (i * gridHeight e + j))) as Hd.
  replace (draw 0 0 default_random_engine (Z.to_nat (i * gridHeight e + j)))
    with 0 by lia.
  done.
Qed.

(** X12. The engine keeps its shape: the constructor yields two grids of
    [width] columns of [height] cells and the eight offsets; and
    [randomInitialization] and [update()], when they complete, leave the
    width, the height and the offsets as they were and both grids of that
    shape. *)
Theorem engine_keeps_its_shape :
  (∀ w h e, Conway_ctor w h = Some e →
     wf e ∧ gridWidth e = w ∧ gridHeight e = h) ∧
  (∀ s e e', wf e → randomInitialization s e = Some e' →
     wf e' ∧ gridWidth e' = gridWidth e ∧ gridHeight e' = gridHeight e) ∧
  (∀ e e', wf e → update e = Some e' →
     wf e' ∧ gridWidth e' = gridWidth e ∧ gridHeight e' = gridHeight e) ∧
  (∀ n e e', wf e → updates n e = Some e' →
     wf e' ∧ gridWidth e' = gridWidth e ∧ gridHeight e' = gridHeight e).
Proof.
  split_and!.
  - apply Conway_ctor_wf.
  - intros s e e' Hwf Hrun. unfold randomInitialization in Hrun.
    case_decide; [done|]. rewrite randomFill_total in Hrun by done.
    injection Hrun as <-. split; [by apply randomized_wf|done].
  - intros e e' Hwf Hrun. split; [by eapply update_wf|by apply update_dims].
  - intros n e e'. apply updates_wf.
Qed.

(** ** [pollEvents] *)

Lemma pollEvents_skip pre rest :
  Forall (λ event, ¬ control SDLK_r event) pre →
  pollEvents SDLK_r (pre ++ rest) = pollEvents SDLK_r rest.
Proof.
  induction 1 as [|event pre Hev _ IH]; [done|]. simpl.
  destruct event as [|sym|]; [|case_decide as Hsym|]; try done.
  - destruct Hev. by left.
  - destruct Hev. right. by rewrite Hsym.
Qed.

(** X13. [pollEvents] consumes the queue up to and including the first
    quit event or press of the key [r], answers for that event alone, and
    leaves what follows it in the queue; other events are dropped.  When the
    queue holds no such event it empties the queue and reports no action. *)
Theorem pollEvents_first_control (pre post : list SDL_Event) :
  Forall (λ event, ¬ control SDLK_r event) pre →
  pollEvents SDLK_r pre = (CALLBACK_NOACTION, []) ∧
  pollEvents SDLK_r (pre ++ SDL_QUIT :: post) = (CALLBACK_QUIT, post) ∧
  pollEvents SDLK_r (pre ++ SDL_KEYDOWN SDLK_r :: post) = (CALLBACK_RESET, post).
Proof.
  intros Hpre. split_and!.
  - rewrite <- (app_nil_r pre). by rewrite pollEvents_skip.
  - by rewrite pollEvents_skip.
  - rewrite pollEvents_skip by done. simpl. by rewrite decide_True.
Qed.

(** ** The arguments of [main] *)

(** X14. Which arguments [main] uses depends on their number alone, and
    nothing is checked.  It prints the usage text exactly when there are
    fewer than two arguments, and then keeps every default (a single
    argument is ignored).  The window size is read exactly when there are at
    least two arguments, the grid size exactly when there are at least four
    (with three, the third is ignored), the sparseness exactly when there
    are at least five, and the frame rate exactly when there are six: for
    every other number, seven or more included, it stays at 30. *)
Theorem parseArgs_ignored_arguments (argv : list arg) :
  let cfg := parseArgs arg atoi argv in
  (usagePrinted cfg = true ↔ (length argv < 3)%nat) ∧
  ((length argv < 3)%nat → cfg = mkConfig 800 600 80 60 2 30 true) ∧
  (length argv = 4%nat →
     cfg = mkConfig (argInt arg atoi argv 1) (argInt arg atoi argv 2) 80 60 2 30 false) ∧
  ((length argv ≥ 8)%nat →
     cfg = mkConfig (argInt arg atoi argv 1) (argInt arg atoi argv 2)
             (argInt arg atoi argv 3) (argInt arg atoi argv 4)
             (to_short (argInt arg atoi argv 5)) 30 false) ∧
  (length argv = 7%nat →
     cfg = mkConfig (argInt arg atoi argv 1) (argInt arg atoi argv 2)
             (argInt arg atoi argv 3) (argInt arg atoi argv 4)
             (to_short (argInt arg atoi argv 5)) (to_short (argInt arg atoi argv 6)) false) ∧
  (length argv ≠ 7%nat → fps cfg = 30) ∧
  (length argv = 7%nat → fps cfg = to_short (argInt arg atoi argv 6)) ∧
  ((length argv < 6)%nat → sparseness cfg = 2) ∧
  ((length argv ≥ 6)%nat → sparseness cfg = to_short (argInt arg atoi argv 5)) ∧
  ((length argv < 5)%nat → cfgGridWidth cfg = 80 ∧ cfgGridHeight cfg = 60) ∧
  ((length argv ≥ 5)%nat →
     cfgGridWidth cfg = argInt arg atoi argv 3 ∧
     cfgGridHeight cfg = argInt arg atoi argv 4) ∧
  ((length argv < 3)%nat → screenWidth cfg = 800 ∧ screenHeight cfg = 600) ∧
  ((length argv ≥ 3)%nat →
     screenWidth cfg = argInt arg atoi argv 1 ∧
     screenHeight cfg = argInt arg atoi argv 2).
Proof.
  unfold parseArgs. split_and!.
  - repeat case_decide; simpl; split; (done || lia).
  - intros Hlen. repeat case_decide; try lia; done.
  - intros Hlen. repeat case_decide; try lia; done.
  - intros Hlen. repeat case_decide; try lia; done.
  - intros Hlen. repeat case_decide; try lia; done.
  - intros Hlen. repeat case_decide; try lia; done.
  - intros Hlen. repeat case_decide; try lia; done.
  - intros Hlen. repeat case_decide; try lia; done.
  - intros Hlen. repeat case_decide; try lia; done.
  - intros Hlen. repeat case_decide; try lia; done.
  - intros Hlen. repeat case_decide; try lia; done.
  - intros Hlen. repeat case_decide; try lia; done.
  - intros Hlen. repeat case_decide; try lia; done.
Qed.

(** ** The first frame and the reset frame *)

Lemma frame_runs cfg e :
  wf e → gridWidth e = cfgGridWidth cfg → gridHeight e = cfgGridHeight cfg →
  2 ≤ cfgGridWidth cfg ≤ 32767 → 2 ≤ cfgGridHeight cfg ≤ 32767 →
  ∃ e2 pts,
    update e = Some e2 ∧
    drawGrid (fullGrid e2) (cfgGridWidth cfg) (cfgGridHeight cfg) = Some pts ∧
    ∀ i j, (i, j) ∈ pts ↔ grid_get (fullGrid e2) i j = Some 1.
Proof.
  intros Hwf Hw Hh Hgw Hgh.
  destruct (update_total e Hwf) as (g & Hrun & Hg & _); [lia..|].
  rewrite Hw, Hh in Hg.
  destruct (drawGrid_shape_defined g _ _ Hg) as (pts & Hpts & _ & Hmem).
  eexists _, pts. split; [exact Hrun|]. done.
Qed.

Lemma startup_Some cfg :
  2 ≤ cfgGridWidth cfg → 2 ≤ cfgGridHeight cfg → 0 ≤ sparseness cfg →
  startup cfg =
    Some (screenWidth cfg ÷ cfgGridWidth cfg, screenHeight cfg ÷ cfgGridHeight cfg,
          {| coords := neighbor_offsets;
             newGrid := randomGrid default_random_engine (sparseness cfg)
                          (cfgGridWidth cfg) (cfgGridHeight cfg);
             oldGrid := randomGrid default_random_engine (sparseness cfg)
                          (cfgGridWidth cfg) (cfgGridHeight cfg);
             gridWidth := cfgGridWidth cfg; gridHeight := cfgGridHeight cfg |}).
Proof.
  intros Hw Hh Hs. unfold startup, int_div.
  rewrite !decide_False by lia. simpl.
  rewrite Conway_ctor_Some by lia. simpl.
  rewrite randomInitialization_total; [done| |done].
  split; [done|]. split; apply replicate_grid_shape; lia.
Qed.

Lemma startup_Some_inv cfg scaleX scaleY e0 :
  startup cfg = Some (scaleX, scaleY, e0) →
  0 < cfgGridWidth cfg ∧ 0 < cfgGridHeight cfg ∧ 0 ≤ sparseness cfg ∧
  wf e0 ∧ gridWidth e0 = cfgGridWidth cfg ∧ gridHeight e0 = cfgGridHeight cfg.
Proof.
  unfold startup, int_div. intros Hstart.
  destruct (decide (cfgGridWidth cfg = 0 ∨
                    screenWidth cfg = -2147483648 ∧ cfgGridWidth cfg = -1))
    as [|Hgw]; [done|].
  destruct (decide (cfgGridHeight cfg = 0 ∨
                    screenHeight cfg = -2147483648 ∧ cfgGridHeight cfg = -1))
    as [|Hgh]; [done|].
  simpl in Hstart.
  destruct (Conway_ctor (cfgGridWidth cfg) (cfgGridHeight cfg)) as [e|] eqn:He;
    [|done].
  simpl in Hstart.
  destruct (decide (cfgGridWidth cfg < 0 ∨ cfgGridHeight cfg < 0)) as [Hneg|Hpos].
  { by rewrite Conway_ctor_None in He. }
  apply Conway_ctor_wf in He as (Hwf & Hw & Hh).
  unfold randomInitialization in Hstart.
  destruct (decide (sparseness cfg < 0)) as [|Hs]; [done|].
  rewrite randomFill_total in Hstart by done. simpl in Hstart.
  injection Hstart as _ _ <-. simpl.
  split; [lia|]. split; [lia|]. split; [lia|].
  split; [by apply randomized_wf|done].
Qed.

(** X15. Let the window be created and let the first turn of the loop of
    [main] meet no quit event.  Frame timing and the window title apart,
    the steps of [main] up to the end of that turn (the two divisions for
    the scale, the constructor, the random initialization, the reset if [r]
    was pressed, [update()] and the drawing) run without an exception and
    without undefined behaviour exactly when the grid width and height lie
    between 2 and 32767 and the sparseness is not negative. *)
Theorem first_frame_defined_iff (cfg : Config) (queue : list SDL_Event) :
  (pollEvents SDLK_r queue).1 ≠ CALLBACK_QUIT →
  (is_Some (st ← startup cfg; frame SDLK_r cfg st.2 queue) ↔
   2 ≤ cfgGridWidth cfg ≤ 32767 ∧ 2 ≤ cfgGridHeight cfg ≤ 32767 ∧
   0 ≤ sparseness cfg).
Proof.
  intros Hcb. split.
  - intros [r Hr].
    destruct (startup cfg) as [[[scaleX scaleY] e0]|] eqn:Hstart; [|done].
    simpl in Hr.
    apply startup_Some_inv in Hstart as (Hgw & Hgh & Hs & Hwf0 & Hw0 & Hh0).
    unfold frame in Hr. destruct (pollEvents SDLK_r queue) as [cb queue'].
    simpl in Hcb.
    assert (∀ e', wf e' → gridWidth e' = cfgGridWidth cfg →
              gridHeight e' = cfgGridHeight cfg → is_Some (update e') →
              2 ≤ cfgGridWidth cfg ≤ 32767 ∧ 2 ≤ cfgGridHeight cfg ≤ 32767) as Hdims.
    { intros e' Hwf' Hw' Hh' [e2 He2].
      apply update_defined_dims in He2; [|done|lia|lia]. by rewrite <- Hw', <- Hh'. }
    destruct cb; [|done|].
    + destruct (update e0) as [e2|] eqn:He2; [|done].
      destruct (Hdims e0 Hwf0) as [? ?]; [done..|by rewrite He2|]. lia.
    + rewrite randomInitialization_total in Hr by (done || lia). simpl in Hr.
      destruct (update _) as [e2|] eqn:He2; [|done].
      destruct (Hdims _ (randomized_wf default_random_engine (sparseness cfg) e0 Hwf0))
        as [? ?]; [done..|by rewrite He2|]. lia.
  - intros (Hw & Hh & Hs). rewrite startup_Some by lia. simpl.
    set (e0 := {| coords := neighbor_offsets; newGrid := _ |}).
    assert (wf e0) as Hwf0.
    { split; [done|]. split; apply randomGrid_shape; lia. }
    destruct (frame_runs cfg e0) as (e2 & pts & Hrun & Hdraw & _); [done..|].
    unfold frame. destruct (pollEvents SDLK_r queue) as [cb queue'].
    simpl in Hcb. destruct cb; [|done|].
    + rewrite Hrun. simpl. rewrite Hdraw. done.
    + rewrite randomInitialization_total by done. simpl.
      fold e0. rewrite Hrun. simpl. rewrite Hdraw. done.
Qed.

(** X16. A reset shows the first picture again.  Let the grid dimensions
    lie between 2 and 32767 and the sparseness be non-negative.  The turn
    of the loop in which [r] is the first key or quit event draws, from an
    engine in whatever state, exactly the points the first turn after
    start-up drew, and leaves the engine that turn left; the events behind
    the key press stay in the queue.  The points drawn are the live cells of
    that engine. *)
Theorem reset_frame_repeats_first_frame
    (cfg : Config) (e : Conway) (first pre post : list SDL_Event) :
  wf e → gridWidth e = cfgGridWidth cfg → gridHeight e = cfgGridHeight cfg →
  2 ≤ cfgGridWidth cfg ≤ 32767 → 2 ≤ cfgGridHeight cfg ≤ 32767 →
  0 ≤ sparseness cfg →
  Forall (λ event, ¬ control SDLK_r event) first →
  Forall (λ event, ¬ control SDLK_r event) pre →
  ∃ scaleX scaleY e0 e1 pts,
    startup cfg = Some (scaleX, scaleY, e0) ∧
    frame SDLK_r cfg e0 first = Some (Some (e1, [], pts)) ∧
    frame SDLK_r cfg e (pre ++ SDL_KEYDOWN SDLK_r :: post) = Some (Some (e1, post, pts)) ∧
    ∀ i j, (i, j) ∈ pts ↔ grid_get (fullGrid e1) i j = Some 1.
Proof.
  intros Hwf Hw Hh Hgw Hgh Hs Hfirst Hpre.
  rewrite startup_Some by lia.
  set (e0 := {| coords := neighbor_offsets; newGrid := _ |}).
  assert (wf e0) as Hwf0.
  { split; [done|]. split; apply randomGrid_shape; lia. }
  destruct (frame_runs cfg e0) as (e1 & pts & Hrun & Hdraw & Hpts); [done..|].
  exists (screenWidth cfg ÷ cfgGridWidth cfg), (screenHeight cfg ÷ cfgGridHeight cfg),
    e0, e1, pts.
  split; [done|]. split; [|split; [|done]].
  - unfold frame. rewrite <- (app_nil_r first), pollEvents_skip by done. simpl.
    rewrite Hrun. simpl. by rewrite Hdraw.
  - unfold frame. rewrite pollEvents_skip by done. simpl.
    rewrite decide_True by done.
    rewrite randomInitialization_total by done. simpl.
    destruct Hwf as (Hc & _). rewrite Hc, Hw, Hh. fold e0.
    rewrite Hrun. simpl. by rewrite Hdraw.
Qed.

End MainProperties.

(** ** Concrete runs of the further properties *)

Lemma update_defined_iff_witness : wf blinker ∧ is_Some (update blinker).
Proof.
  assert (wf blinker) as Hwf by by_evaluation.
  split; [exact Hwf|].
  apply (update_defined_iff blinker Hwf). right; right. simpl. lia.
Defined.

Lemma update_ignores_other_buffer_witness :
  wf blinker ∧
  wf (mkConway neighbor_offsets (newGrid blinker) (newGrid (block_engine 5 5 1 1)) 5 5) ∧
  fullGrid <$> update blinker =
    fullGrid <$> update (mkConway neighbor_offsets (newGrid blinker)
                           (newGrid (block_engine 5 5 1 1)) 5 5).
Proof.
  assert (wf blinker) as Hwf1 by by_evaluation.
  assert (wf (mkConway neighbor_offsets (newGrid blinker)
                (newGrid (block_engine 5 5 1 1)) 5 5)) as Hwf2 by by_evaluation.
  split; [exact Hwf1|]. split; [exact Hwf2|].
  apply (update_ignores_other_buffer _ _ Hwf1 Hwf2); reflexivity.
Defined.

Lemma countLiveNeighbors_torus_witness :
  wf blinker ∧
  countLiveNeighbors blinker 1 2 = Some (torusCount (oldGrid blinker) 5 5 1 2).
Proof.
  assert (wf blinker) as Hwf by by_evaluation.
  split; [exact Hwf|].
  apply (countLiveNeighbors_torus blinker 1 2 Hwf); simpl; lia.
Defined.

Lemma verifyBound_in_bounds_iff_witness :
  (1 ≤ 3 ≤ 32767 ∧ -32768 ≤ -2 ≤ 32767) ∧
  ∃ y, verifyBound 3 (-2) = Some y ∧ (0 ≤ y < 3 ↔ 1 - 3 ≤ -2).
Proof.
  split; [lia|].
  destruct (verifyBound_in_bounds_iff 3 (-2)) as (y & Hy & Hin & _); [lia..|].
  exists y. split; [exact Hy|exact Hin].
Defined.

Lemma dead_grid_stays_dead_witness :
  wf (engine_of 3 3 (grid_of 3 3 (λ _ _, 0))) ∧
  ∃ e', update (engine_of 3 3 (grid_of 3 3 (λ _ _, 0))) = Some e' ∧
        fullGrid e' = grid_of 3 3 (λ _ _, 0).
Proof.
  assert (wf (engine_of 3 3 (grid_of 3 3 (λ _ _, 0)))) as Hwf by by_evaluation.
  split; [exact Hwf|].
  apply (dead_grid_stays_dead _ Hwf); [simpl; lia..|].
  intros i j v Hv.
  destruct (grid_get_bound 3 3 _ i j v (proj1 (proj2 Hwf)) Hv) as [Hi Hj].
  unfold fullGrid in Hv. simpl in Hv.
  rewrite (grid_get_grid_of 3 3 (λ _ _, 0) i j Hi Hj) in Hv.
  injection Hv as <-. reflexivity.
Defined.

Lemma writeGrid_then_read_witness :
  wf blinker ∧
  (is_Some (writeGrid blinker (1, 1) 1) ↔ 0 ≤ 1 < 5 ∧ 0 ≤ 1 < 5).
Proof.
  assert (wf blinker) as Hwf by by_evaluation.
  split; [exact Hwf|].
  exact (proj1 (writeGrid_then_read blinker (1, 1) 1 Hwf)).
Defined.

Lemma lone_cell_dies_witness :
  wf (only_alive 3 3 1 1) ∧
  ∃ e', update (only_alive 3 3 1 1) = Some e' ∧
        fullGrid e' = grid_of 3 3 (λ _ _, 0).
Proof.
  assert (wf (only_alive 3 3 1 1)) as Hwf by by_evaluation.
  split; [exact Hwf|].
  apply (lone_cell_dies (only_alive 3 3 1 1) 1 1 Hwf); simpl; (lia || reflexivity).
Defined.

Lemma blinker_period_two_witness :
  wf blinker ∧
  ∃ e1 e2, update blinker = Some e1 ∧
           fullGrid e1 = grid_of 5 5 (line_h 2 2) ∧
           update e1 = Some e2 ∧ fullGrid e2 = fullGrid blinker.
Proof.
  assert (wf blinker) as Hwf by by_evaluation.
  split; [exact Hwf|].
  apply (blinker_period_two blinker 2 2 Hwf); simpl; (lia || (vm_compute; reflexivity)).
Defined.

Lemma drawGrid_draws_live_cells_witness :
  grid_shape 5 5 (fullGrid blinker) ∧
  ∃ pts, drawGrid (fullGrid blinker) 5 5 = Some pts ∧ NoDup pts ∧
         ∀ i j, (i, j) ∈ pts ↔ grid_get (fullGrid blinker) i j = Some 1.
Proof.
  assert (grid_shape 5 5 (fullGrid blinker)) as Hg by by_evaluation.
  split; [exact Hg|].
  exact (proj1 (drawGrid_draws_live_cells (fullGrid blinker) 5 5 Hg)).
Defined.

Lemma elapsedTimes_window_witness :
  [0; 0; 0; 0; 0] ≠ [] ∧
  for_each [11; 12; 13; 14; 15; 16; 17] recordElapsed [0; 0; 0; 0; 0] =
    Some (take 5 (reverse [11; 12; 13; 14; 15; 16; 17] ++ [0; 0; 0; 0; 0])).
Proof.
  assert ([0; 0; 0; 0; 0] ≠ ([] : list Z)) as Hne by discriminate.
  split; [exact Hne|].
  exact (proj1 (elapsedTimes_window [11; 12; 13; 14; 15; 16; 17] [0; 0; 0; 0; 0] Hne)).
Defined.

Lemma randomInitialization_zero_all_alive_witness :
  wf blinker ∧
  ∃ e', randomInitialization 0 blinker = Some e' ∧
    ∀ i j, 0 ≤ i < 5 → 0 ≤ j < 5 →
      grid_get (newGrid e') i j = Some 1 ∧ grid_get (oldGrid e') i j = Some 1.
Proof.
  assert (wf blinker) as Hwf by by_evaluation.
  split; [exact Hwf|].
  exact (@randomInitialization_zero_all_alive lehmer_source blinker Hwf).
Defined.

Lemma pollEvents_first_control_witness :
  Forall (λ event, ¬ control 114 event) [SDL_OTHER; SDL_KEYDOWN 97] ∧
  pollEvents 114 ([SDL_OTHER; SDL_KEYDOWN 97] ++ SDL_KEYDOWN 114 :: [SDL_QUIT]) =
    (CALLBACK_RESET, [SDL_QUIT]).
Proof.
  assert (Forall (λ event, ¬ control 114 event) [SDL_OTHER; SDL_KEYDOWN 97]) as Hpre.
  { repeat constructor; intros [?|?]; congruence. }
  split; [exact Hpre|].
  exact (proj2 (proj2 (pollEvents_first_control 114 _ [SDL_QUIT] Hpre))).
Defined.

Lemma first_frame_defined_iff_witness :
  (pollEvents 114 [SDL_OTHER]).1 ≠ CALLBACK_QUIT ∧
  is_Some (st ← startup (mkConfig 800 600 80 60 2 30 true);
           frame 114 (mkConfig 800 600 80 60 2 30 true) st.2 [SDL_OTHER]).
Proof.
  assert ((pollEvents 114 [SDL_OTHER]).1 ≠ CALLBACK_QUIT) as Hcb by discriminate.
  split; [exact Hcb|].
  apply (@first_frame_defined_iff lehmer_source 114 _ _ Hcb). simpl. lia.
Defined.

Lemma reset_frame_repeats_first_frame_witness :
  wf blinker ∧
  Forall (λ event, ¬ control 114 event) [SDL_OTHER] ∧
  ∃ scaleX scaleY e0 e1 pts,
    startup (mkConfig 800 600 5 5 2 30 false) = Some (scaleX, scaleY, e0) ∧
    frame 114 (mkConfig 800 600 5 5 2 30 false) e0 [] = Some (Some (e1, [], pts)) ∧
    frame 114 (mkConfig 800 600 5 5 2 30 false) blinker
      ([SDL_OTHER] ++ SDL_KEYDOWN 114 :: [SDL_QUIT]) = Some (Some (e1, [SDL_QUIT], pts)) ∧
    ∀ i j, (i, j) ∈ pts ↔ grid_get (fullGrid e1) i j = Some 1.
Proof.
  assert (wf blinker) as Hwf by by_evaluation.
  assert (Forall (λ event, ¬ control 114 event) [SDL_OTHER]) as Hpre.
  { repeat constructor; intros [?|?]; congruence. }
  split; [exact Hwf|]. split; [exact Hpre|].
  apply (@reset_frame_repeats_first_frame lehmer_source 114
           (mkConfig 800 600 5 5 2 30 false) blinker [] [SDL_OTHER] [SDL_QUIT] Hwf);
    simpl; first [reflexivity | lia | exact Hpre | constructor].
Defined.
